(** * Metropolis-Hastings sampler of the Monte Carlo notebook

    A shallow embedding of [proposal], [accept] and [run_chain] (and of the
    toy generator [rng]) together with the properties of the sampler.

    Modelling conventions.
    - Python floats are idealised as exact rationals ([Q]); two samples are
      "equal in value" when they agree componentwise up to [Qeq].
    - A one-dimensional numpy array is a [list Q]; [paramrange] is an array
      of shape (K,2), a [list (Q * Q)] of (low, high) rows.
    - The process-wide state of [np.random] is threaded explicitly.  The
      world also keeps the chronological list of the calls made to the
      random source and to the density evaluator, so that "draws nothing"
      and "does not evaluate the density" are ordinary statements.
    - Python exceptions are the [Raise] results of an error monad. *)

From Stdlib Require Import List Bool ZArith QArith Qabs Qpower Lia Lqa.
Import ListNotations.
Open Scope Q_scope.

(** ** Python values and exceptions *)

Module Py.

Inductive exn : Type :=
| ZeroDivisionError
| ValueError
| IndexError
| OtherError.

Inductive result (A : Type) : Type :=
| Ok (a : A)
| Raise (e : exn).

Arguments Ok {A} a.
Arguments Raise {A} e.

Definition Qlt_bool (x y : Q) : bool := negb (Qle_bool y x).

(** [x / y] on Python floats. *)
Definition truediv (x y : Q) : result Q :=
  if Qeq_bool y 0 then Raise ZeroDivisionError else Ok (x / y).

(** A [bool] used as a number. *)
Definition b2q (b : bool) : Q := if b then 1 else 0.

End Py.

Import Py.

(** ** The random source and the world *)

(** The generator behind [np.random]: a draw of [random_sample] lies in the
    half-open unit interval; a standard normal draw is any number. *)
Class RandomState (G : Type) : Type := {
  random_sample : G -> Q * G;
  standard_normal : G -> Q * G;
  random_sample_unit : forall g, 0 <= fst (random_sample g) /\ fst (random_sample g) < 1
}.

Definition sample : Type := list Q.

Inductive event : Type :=
| EvUniform (low high : Q)
| EvNormal (scale : Q) (size : nat)
| EvChoice (p : list Q)
| EvDensity (samp : sample) (value : Q).

Record world (G : Type) : Type := World {
  gen : G;
  calls : list event
}.

Arguments World {G} gen calls.
Arguments gen {G} w.
Arguments calls {G} w.

(** ** State-and-exception monad *)

Definition M (G A : Type) : Type := world G -> result (A * world G).

Definition ret {G A} (a : A) : M G A := fun w => Ok (a, w).

Definition bind {G A B} (c : M G A) (k : A -> M G B) : M G B :=
  fun w => match c w with
           | Ok (a, w') => k a w'
           | Raise e => Raise e
           end.

Definition raise {G A} (e : exn) : M G A := fun _ => Raise e.

Definition lift {G A} (r : result A) : M G A :=
  fun w => match r with Ok a => Ok (a, w) | Raise e => Raise e end.

Definition record {G} (e : event) : M G unit :=
  fun w => Ok (tt, World (gen w) (calls w ++ [e])).

Declare Scope monad_scope.
Delimit Scope monad_scope with monad.
Notation "x <- c ;; k" := (bind c (fun x => k))
  (at level 61, c at next level, right associativity) : monad_scope.
Notation "' pat <- c ;; k" := (bind c (fun x => match x with pat => k end))
  (at level 61, pat pattern, c at next level, right associativity) : monad_scope.
Notation "c ;; k" := (bind c (fun _ => k))
  (at level 61, right associativity) : monad_scope.
Open Scope monad_scope.

(** [for i in range(n): st = body(st)] *)
Fixpoint for_range {G S} (n : nat) (body : S -> M G S) (st : S) : M G S :=
  match n with
  | O => ret st
  | Datatypes.S n' => st' <- body st ;; for_range n' body st'
  end.

(** [[f(x) for x in xs]] with an effectful [f], left to right. *)
Fixpoint comprehension {G A B} (f : A -> M G B) (xs : list A) : M G (list B) :=
  match xs with
  | [] => ret []
  | x :: xs' => y <- f x ;; ys <- comprehension f xs' ;; ret (y :: ys)
  end.

(** ** The numpy operations the sampler calls *)

Module NumPy.

(** Elementwise binary operation on one-dimensional arrays, with numpy's
    broadcasting of a length-one operand. *)
Definition broadcast (f : Q -> Q -> Q) (a b : sample) : result sample :=
  if Nat.eqb (length a) (length b) then
    Ok (map (fun '(x, y) => f x y) (combine a b))
  else if Nat.eqb (length a) 1 then Ok (map (f (hd 0 a)) b)
  else if Nat.eqb (length b) 1 then Ok (map (fun x => f x (hd 0 b)) a)
  else Raise ValueError.

Definition add (a b : sample) : result sample := broadcast Qplus a b.

(** scalar * array *)
Definition scale (c : Q) (a : sample) : sample := map (Qmult c) a.

(** [(a > 0).all()] *)
Definition all_positive (a : sample) : bool := forallb (Qlt_bool 0) a.

(** [a.cumsum()] *)
Fixpoint cumsum_from (acc : Q) (a : list Q) : list Q :=
  match a with
  | [] => []
  | x :: a' => (acc + x) :: cumsum_from (acc + x) a'
  end.

Definition cumsum (a : list Q) : list Q := cumsum_from 0 a.

(** [cdf.searchsorted(u, side='right')] on a non-decreasing [cdf]. *)
Fixpoint searchsorted_right (cdf : list Q) (u : Q) : nat :=
  match cdf with
  | [] => O
  | c :: cdf' => if Qle_bool c u then S (searchsorted_right cdf' u) else O
  end.

(** [sqrt(finfo(float64).eps)], the tolerance of the sum test of [choice]. *)
Definition atol : Q := 1 # (2 ^ 26).

Section Random.
Context {G : Type} `{RandomState G}.

Definition draw_sample : M G Q :=
  fun w => let (u, g) := random_sample (gen w) in Ok (u, World g (calls w)).

Definition draw_normal : M G Q :=
  fun w => let (z, g) := standard_normal (gen w) in Ok (z, World g (calls w)).

(** [np.random.uniform(low, high)] *)
Definition random_uniform (low high : Q) : M G Q :=
  record (EvUniform low high) ;;
  u <- draw_sample ;;
  ret (low + (high - low) * u).

(** [np.random.normal(loc, scale, size)] *)
Definition random_normal (loc scale : Q) (size : nat) : M G sample :=
  if Qlt_bool scale 0 then raise ValueError
  else
    record (EvNormal scale size) ;;
    comprehension (fun _ : nat => z <- draw_normal ;; ret (loc + scale * z))
                  (seq 0 size).

(** [np.random.choice(a, p=p)] for a single draw. *)
Definition random_choice {A} (a : list A) (p : list Q) : M G A :=
  if negb (Nat.eqb (length a) (length p)) then raise ValueError
  else if Nat.eqb (length a) 0 then raise ValueError
  else if existsb (fun x => Qlt_bool x 0) p then raise ValueError
  else if Qlt_bool atol (Qabs (fold_left Qplus p 0 - 1)) then raise ValueError
  else
    record (EvChoice p) ;;
    u <- draw_sample ;;
    let cdf := cumsum p in
    let cdf := map (fun c => c / last cdf 0) cdf in
    match nth_error a (searchsorted_right cdf u) with
    | Some x => ret x
    | None => raise IndexError
    end.

End Random.

End NumPy.

(** ** The sampler *)

Definition paramrange_t : Type := list (Q * Q).

(** The density evaluator with its extra arguments already applied. *)
Definition density : Type := sample -> result Q.

Section Sampler.
Context {G : Type} `{RandomState G}.

(** [P(samp, *Pargs)] *)
Definition call_density (P : density) (samp : sample) : M G Q :=
  v <- lift (P samp) ;;
  record (EvDensity samp v) ;;
  ret v.

Definition proposal (oldsamp : sample) (sigmaprop : Q) (D : nat) : M G sample :=
  eps <- NumPy.random_normal 0 sigmaprop D ;;
  lift (NumPy.add oldsamp eps).

(** The test of the first [if] of [accept], before its [not]. *)
Definition in_range (newsamp : sample) (paramrange : paramrange_t) : bool :=
  NumPy.all_positive
    (map (fun '(p1, p2) => p1 - p2) (combine newsamp (map fst paramrange)))
  && NumPy.all_positive
    (map (fun '(p1, p2) => p1 - p2) (combine (map snd paramrange) newsamp)).

Definition accept (newsamp oldsamp : sample) (paramrange : paramrange_t)
           (P : density) : M G (bool * sample) :=
  if negb (in_range newsamp paramrange) then
    ret (false, oldsamp)
  else
    newprob <- call_density P newsamp ;;
    oldprob <- call_density P oldsamp ;;
    if Qle_bool oldprob newprob then
      ret (true, newsamp)
    else
      prob <- lift (truediv newprob oldprob) ;;
      acc <- NumPy.random_choice [true; false] [prob; 1 - prob] ;;
      mixed <- lift (NumPy.add (NumPy.scale (b2q acc) newsamp)
                               (NumPy.scale (1 - b2q acc) oldsamp)) ;;
      ret (acc, mixed).

(** The loop variables of [run_chain]. *)
Record chain_state : Type := ChainState {
  cs_oldsamp : sample;
  cs_count : Z;
  cs_samples : list sample
}.

Definition chain_body (paramrange : paramrange_t) (sigmaprop : Q) (D : nat)
           (P : density) (st : chain_state) : M G chain_state :=
  newsamp <- proposal (cs_oldsamp st) sigmaprop D ;;
  '(acc, newsamp) <- accept newsamp (cs_oldsamp st) paramrange P ;;
  let samples := cs_samples st ++ [newsamp] in
  let count := if acc : bool then (cs_count st + 1)%Z else cs_count st in
  ret (ChainState newsamp count samples).

Definition initial_sample (paramrange : paramrange_t) (D : nat) : M G sample :=
  comprehension
    (fun d => match nth_error paramrange d with
              | Some (low, high) => NumPy.random_uniform low high
              | None => raise IndexError
              end)
    (seq 0 D).

Definition run_chain (steps : Z) (paramrange : paramrange_t) (sigmaprop : Q)
           (D : nat) (P : density) : M G (list sample * Q) :=
  oldsamp <- initial_sample paramrange D ;;
  st <- for_range (Z.to_nat steps) (chain_body paramrange sigmaprop D P)
                  (ChainState oldsamp 0%Z [oldsamp]) ;;
  ar <- lift (truediv (1 * inject_Z (cs_count st)) (inject_Z steps)) ;;
  ret (cs_samples st, ar).

End Sampler.

(** ** The toy generator of the notebook *)

Module LCG.

Definition m : Z := 2 ^ 32.
Definition a : Z := 1103515245.
Definition b : Z := 12345.

(** [rng]: update [rng.current] and return it scaled to the unit interval. *)
Definition rng (current : Z) : Q * Z :=
  let current := ((a * current + b) mod m)%Z in
  (1 * inject_Z current / inject_Z m, current).

(** Sum of twelve draws, recentred: the stand-in for a normal variate. *)
Fixpoint sum_draws (n : nat) (acc : Q) (current : Z) : Q * Z :=
  match n with
  | O => (acc, current)
  | S n' => let (u, current) := rng current in sum_draws n' (acc + u) current
  end.

Definition gauss (current : Z) : Q * Z :=
  let (s, current) := sum_draws 12 0 current in (Qred (s - 6), current).

End LCG.


(** The toy generator is a random source. *)
#[export] Instance lcg_random_state : RandomState Z.
Proof.
  refine {| random_sample := LCG.rng; standard_normal := LCG.gauss |}.
  intro g. unfold LCG.rng. cbn [fst].
  assert (Hm : (0 < LCG.m)%Z) by reflexivity.
  pose proof (Z.mod_pos_bound (LCG.a * g + LCG.b) LCG.m Hm) as [Hlo Hhi].
  set (c := ((LCG.a * g + LCG.b) mod LCG.m)%Z) in *.
  assert (Hq : 0 < inject_Z LCG.m) by reflexivity.
  split.
  - apply Qle_shift_div_l; [exact Hq|].
    rewrite Qmult_0_l, Qmult_1_l. rewrite (Zle_Qle 0 c) in Hlo. exact Hlo.
  - apply Qlt_shift_div_r; [exact Hq|].
    rewrite !Qmult_1_l. rewrite (Zlt_Qlt c LCG.m) in Hhi. exact Hhi.
Defined.

(** ** Example densities *)

(** An unnormalised Cauchy bump in the first coordinate. *)
Definition bump : density :=
  fun samp => let x := hd 0 samp in Ok (Qred (1 / (1 + x * x))).

(** A tent on [-1,1] in the first coordinate, zero elsewhere. *)
Definition tent : density :=
  fun samp => let x := hd 0 samp in
              if Qle_bool (Qabs x) 1 then Ok (1 - Qabs x) else Ok 0.

(** A flat target. *)
Definition flat : density := fun _ => Ok 1.

(** An evaluator that always fails. *)
Definition broken : density := fun _ => Raise OtherError.

Definition square : paramrange_t := [(-10, 10); (-10, 10)].
Definition segment : paramrange_t := [(-10, 10)].

Definition world0 : world Z := World 101%Z [].

(** ** Specification vocabulary *)

(** Componentwise equality in value of two samples. *)
Definition same_value (s t : sample) : Prop := Forall2 Qeq s t.

(** Every checked component lies strictly between its bounds: what the
    first test of [accept] lets through. *)
Definition strictly_inside (samp : sample) (paramrange : paramrange_t) : Prop :=
  forall d v low high,
    nth_error samp d = Some v -> nth_error paramrange d = Some (low, high) ->
    low < v /\ v < high.

(** Component [d] is on or beyond an endpoint of its interval. *)
Definition component_outside (samp : sample) (paramrange : paramrange_t) (d : nat) : Prop :=
  exists v low high,
    nth_error samp d = Some v /\ nth_error paramrange d = Some (low, high) /\
    (v <= low \/ high <= v).

(** The closed-interval bounds invariant of a recorded state. *)
Definition within_bounds (samp : sample) (paramrange : paramrange_t) : Prop :=
  forall d v low high,
    nth_error samp d = Some v -> nth_error paramrange d = Some (low, high) ->
    low <= v /\ v <= high.

(** The sample returned by the last branch of [accept]. *)
Definition mixture (acc : bool) (newsamp oldsamp : sample) : sample :=
  map (fun '(x, y) => x + y)
      (combine (NumPy.scale (b2q acc) newsamp) (NumPy.scale (1 - b2q acc) oldsamp)).

(** A valid density evaluator: it never fails and is non-negative. *)
Definition valid_density (P : density) : Prop :=
  forall samp, exists v, P samp = Ok v /\ 0 <= v.

(** Every interval used by a [D]-dimensional chain is present and non-empty
    in the closed sense. *)
Definition valid_range (paramrange : paramrange_t) (D : nat) : Prop :=
  (D <= length paramrange)%nat /\
  forall d low high,
    (d < D)%nat -> nth_error paramrange d = Some (low, high) -> low <= high.

(** Number of [True] in a list of acceptance flags. *)
Definition count_true (accs : list bool) : Z :=
  Z.of_nat (length (filter (fun b : bool => b) accs)).

(** The calls a computation makes do not depend on the calls made before it,
    and neither do its result and the generator state it leaves. *)
Definition framed {G A} (c : M G A) : Prop :=
  forall g l,
    c (World g l) =
    match c (World g []) with
    | Ok (a, w') => Ok (a, World (gen w') (l ++ calls w'))
    | Raise e => Raise e
    end.

(** The calls one step of the chain may make, in order: the proposal draw,
    then nothing (candidate out of range), or the two density evaluations,
    followed by the acceptance draw exactly when the density went down. *)
Inductive step_calls (sigmaprop : Q) (D : nat) : list event -> Prop :=
| step_out_of_range :
    step_calls sigmaprop D [EvNormal sigmaprop D]
| step_uphill newsamp newprob oldsamp oldprob :
    oldprob <= newprob ->
    step_calls sigmaprop D
      [EvNormal sigmaprop D; EvDensity newsamp newprob; EvDensity oldsamp oldprob]
| step_downhill newsamp newprob oldsamp oldprob :
    newprob < oldprob ->
    step_calls sigmaprop D
      [EvNormal sigmaprop D; EvDensity newsamp newprob; EvDensity oldsamp oldprob;
       EvChoice [newprob / oldprob; 1 - newprob / oldprob]].

(** The calls of the initial draw: one uniform draw per dimension. *)
Definition initial_calls (paramrange : paramrange_t) (D : nat) : list event :=
  map (fun '(low, high) => EvUniform low high) (firstn D paramrange).

Section Steps.
Context {G : Type} `{RandomState G}.

(** The initial draw, generalised to the dimensions [s], [s+1], ... *)
Definition initial_from (paramrange : paramrange_t) (s n : nat) : M G sample :=
  comprehension
    (fun d => match nth_error paramrange d with
              | Some (low, high) => NumPy.random_uniform low high
              | None => raise IndexError
              end)
    (seq s n).

(** [chain_steps n x w accs xs w']: from state [x] in world [w], [n]
    successive proposal/accept calls return the flags [accs] and the states
    [xs], and leave the world [w']. *)
Inductive chain_steps (paramrange : paramrange_t) (sigmaprop : Q) (D : nat)
          (P : density) :
  nat -> sample -> world G -> list bool -> list sample -> world G -> Prop :=
| chain_steps_O x w :
    chain_steps paramrange sigmaprop D P O x w [] [] w
| chain_steps_S n x w cand w1 acc x' w2 accs xs w3 :
    proposal x sigmaprop D w = Ok (cand, w1) ->
    accept cand x paramrange P w1 = Ok ((acc, x'), w2) ->
    chain_steps paramrange sigmaprop D P n x' w2 accs xs w3 ->
    chain_steps paramrange sigmaprop D P (S n) x w (acc :: accs) (x' :: xs) w3.

End Steps.

(** ** The other routines of the notebooks *)

(** [rng(m, a, b)] with its arguments explicit: [%] raises on a zero
    modulus, before [rng.current] is assigned. *)
Definition rng_args (m a b current : Z) : result (Q * Z) :=
  if (m =? 0)%Z then Raise ZeroDivisionError
  else
    let current := ((a * current + b) mod m)%Z in
    Ok (1 * inject_Z current / inject_Z m, current).

(** [[rng() for i in range(n)]], together with the [rng.current] it leaves. *)
Fixpoint rng_list (n : nat) (current : Z) : list Q * Z :=
  match n with
  | O => ([], current)
  | S n' =>
      let (u, current) := LCG.rng current in
      let (us, current) := rng_list n' current in
      (u :: us, current)
  end.

Section Rejection.
Context {G : Type} `{RandomState G}.

(** [np.random.uniform(low, high, size)]: one call, [size] draws. *)
Definition random_uniform_array (low high : Q) (size : nat) : M G sample :=
  record (EvUniform low high) ;;
  comprehension
    (fun _ : nat => u <- NumPy.draw_sample ;; ret (low + (high - low) * u))
    (seq 0 size).

Definition draw_sample : M G sample := random_uniform_array (-10) 10 2.

Definition draw_sample_Ddim (D : nat) : M G sample :=
  random_uniform_array (-10) 10 D.

(** [AcceptReject(c, D, P, *Pargs)]; [Pargs] is the whole argument pack. *)
Definition AcceptReject {A : Type} (c : Q) (D : Z) (P : A -> result Q)
           (Pargs : A) : M G bool :=
  Pval <- lift (P Pargs) ;;
  proposalval <- lift (truediv 1 (20 ^ D)) ;;
  prob <- lift (truediv Pval (c * proposalval)) ;;
  NumPy.random_choice [true; false] [prob; 1 - prob].

(** The body of the sampling loop of the rejection-sampling cells; the loop
    variables are [count] and [samples]. *)
Definition rejection_body (c : Q) (D : nat) (P : density)
           (st : Z * list sample) : M G (Z * list sample) :=
  samp <- draw_sample_Ddim D ;;
  acc <- AcceptReject c (Z.of_nat D) P samp ;;
  ret (if acc : bool then ((fst st + 1)%Z, snd st ++ [samp]) else st).

(** The sampling loop with the acceptance ratio it prints. *)
Definition rejection_sampling (N : Z) (c : Q) (D : nat) (P : density)
  : M G (list sample * Q) :=
  st <- for_range (Z.to_nat N) (rejection_body c D P) (0%Z, []) ;;
  ar <- lift (truediv (1 * inject_Z (fst st)) (inject_Z N)) ;;
  ret (snd st, ar).

End Rejection.

(** A sample of the box [-10,10)^D the rejection sampler draws from. *)
Definition in_box (samp : sample) : Prop :=
  Forall (fun v => -10 <= v /\ v < 10) samp.

(** What the rejection sampler may keep. *)
Definition kept (c : Q) (D : nat) (P : density) (samp : sample) : Prop :=
  length samp = D /\ in_box samp /\
  exists Pval, P samp = Ok Pval /\ 0 < Pval /\ Pval <= c * (1 / 20 ^ Z.of_nat D).

(** ** The power-series solution of the first notebook *)

(** [range(start, stop, step)] for a positive [step]. *)
Definition py_range (start stop step : Z) : list Z :=
  map (fun i => (start + Z.of_nat i * step)%Z)
      (seq 0 (Z.to_nat ((stop - start + step - 1) / step))).

(** Every expression [h_sol] builds is the symbol [c] times a polynomial in
    [xi] with rational coefficients: the sympy term [c*q*xi**j] is the pair
    [(q, j)], and a sum is the list of its terms. *)
Definition term : Type := (Q * Z)%type.

(** One turn of either loop of [h_sol]; the loop variables are [F] and [g]. *)
Definition h_sol_step (n : Z) (st : Q * list term) (j : Z) : Q * list term :=
  let F := fst st *
           (inject_Z (-2) * inject_Z (n - (j - 2)) / inject_Z ((j - 1) * j)) in
  (F, snd st ++ [(F, j)]).

Definition h_sol (n : Z) : list term :=
  if (n mod 2 =? 0)%Z then
    snd (fold_left (h_sol_step n) (py_range 2 (n + 1) 2) (1, [(1, 0%Z)]))
  else
    snd (fold_left (h_sol_step n) (py_range 3 (n + 1) 2) (1, [(1, 1%Z)])).

(** The value at [xi = x] of a sum of terms (per unit of [c]). *)
Definition eval_terms (g : list term) (x : Q) : Q :=
  fold_right (fun t acc => fst t * x ^ snd t + acc) 0 g.

(** The derivative with respect to [xi], term by term. *)
Definition diff_terms (g : list term) : list term :=
  map (fun t => if (snd t =? 0)%Z then (0, 0%Z)
                else (inject_Z (snd t) * fst t, (snd t - 1)%Z)) g.

(** The left-hand side of the equation for h with K = 2n + 1:
    h'' - 2 xi h' + 2 n h. *)
Definition hermite_lhs (n : Z) (g : list term) (x : Q) : Q :=
  eval_terms (diff_terms (diff_terms g)) x
  - 2 * x * eval_terms (diff_terms g) x
  + 2 * inject_Z n * eval_terms g x.

(** [j; j+2; ...], [k] entries. *)
Fixpoint by_twos (j : Z) (k : nat) : list Z :=
  match k with
  | O => []
  | S k' => j :: by_twos (j + 2) k'
  end.

(** A call that is not an acceptance draw. *)
Definition not_choice (e : event) : Prop :=
  match e with
  | EvChoice _ => False
  | _ => True
  end.

(** ** Basic facts *)

Lemma Qlt_bool_iff (x y : Q) : Qlt_bool x y = true <-> x < y.
Proof.
  unfold Qlt_bool. rewrite negb_true_iff. split.
  - intros E. apply Qnot_le_lt. intro Hle.
    apply Qle_bool_iff in Hle. congruence.
  - intros Hlt. destruct (Qle_bool y x) eqn:E; [|reflexivity].
    apply Qle_bool_iff in E. lra.
Qed.

Lemma Qlt_bool_false_iff (x y : Q) : Qlt_bool x y = false <-> y <= x.
Proof.
  unfold Qlt_bool. rewrite negb_false_iff. apply Qle_bool_iff.
Qed.

Lemma Qle_bool_false_iff (x y : Q) : Qle_bool x y = false <-> y < x.
Proof.
  split.
  - intros E. apply Qnot_le_lt. intro Hle.
    apply Qle_bool_iff in Hle. congruence.
  - intros Hlt. destruct (Qle_bool x y) eqn:E; [|reflexivity].
    apply Qle_bool_iff in E. lra.
Qed.

Lemma same_value_refl (s : sample) : same_value s s.
Proof. induction s; constructor; [reflexivity | assumption]. Qed.

Lemma in_range_iff (samp : sample) (paramrange : paramrange_t) :
  in_range samp paramrange = true <-> strictly_inside samp paramrange.
Proof.
  unfold in_range, strictly_inside, NumPy.all_positive.
  revert paramrange.
  induction samp as [|x samp IH]; intros [|[lo hi] pr]; cbn.
  - split; [intros _ [|d] v l h E; discriminate | reflexivity].
  - split; [intros _ [|d] v l h E; discriminate | reflexivity].
  - split; [intros _ [|d] v l h _ E; discriminate | reflexivity].
  - rewrite andb_true_iff, !andb_true_iff, !Qlt_bool_iff.
    specialize (IH pr). rewrite andb_true_iff in IH. split.
    + intros [[H1 H2] [H3 H4]] [|d] v l h Hs Hp; cbn in Hs, Hp.
      * injection Hs as <-. injection Hp as <- <-. lra.
      * apply (proj1 IH (conj H2 H4) d); assumption.
    + intros Hall.
      destruct (Hall O x lo hi eq_refl eq_refl) as [Ha Hb].
      assert (IH' : forall d v l h, nth_error samp d = Some v ->
                nth_error pr d = Some (l, h) -> l < v /\ v < h)
        by (intros d; exact (Hall (S d))).
      apply IH in IH'. destruct IH' as [H2 H4].
      repeat split; try assumption; lra.
Qed.

Lemma outside_not_in_range (samp : sample) (paramrange : paramrange_t) (d : nat) :
  component_outside samp paramrange d -> in_range samp paramrange = false.
Proof.
  intros (v & lo & hi & Hs & Hp & Hout).
  destruct (in_range samp paramrange) eqn:E; [|reflexivity].
  apply in_range_iff in E. destruct (E d v lo hi Hs Hp). lra.
Qed.

(** ** The acceptance rule, branch by branch *)

Section AcceptFacts.
Context {G : Type} `{RandomState G}.

Lemma accept_out_of_range newsamp oldsamp paramrange P (w : world G) :
  in_range newsamp paramrange = false ->
  accept newsamp oldsamp paramrange P w = Ok ((false, oldsamp), w).
Proof.
  intros E. unfold accept. rewrite E. reflexivity.
Qed.

Lemma accept_uphill newsamp oldsamp paramrange (P : density) newprob oldprob (w : world G) :
  in_range newsamp paramrange = true ->
  P newsamp = Ok newprob -> P oldsamp = Ok oldprob ->
  oldprob <= newprob ->
  accept newsamp oldsamp paramrange P w =
    Ok ((true, newsamp),
        World (gen w)
              (calls w ++ [EvDensity newsamp newprob; EvDensity oldsamp oldprob])).
Proof.
  intros E Hn Ho Hle. unfold accept, call_density, bind, lift, record, ret.
  rewrite E, Hn, Ho. cbn.
  apply Qle_bool_iff in Hle. rewrite Hle.
  rewrite <- app_assoc. reflexivity.
Qed.

Lemma mixture_value acc newsamp oldsamp :
  length newsamp = length oldsamp ->
  same_value (mixture acc newsamp oldsamp) (if acc then newsamp else oldsamp).
Proof.
  unfold mixture, NumPy.scale, same_value. revert oldsamp.
  induction newsamp as [|x xs IH]; intros [|y ys] Hlen; try discriminate.
  - destruct acc; constructor.
  - injection Hlen as Hlen. specialize (IH ys Hlen).
    destruct acc; cbn in *; constructor; try assumption; ring.
Qed.

Lemma choice_two (p : Q) (w : world G) :
  0 <= p -> p < 1 ->
  NumPy.random_choice [true; false] [p; 1 - p] w =
    Ok (Qlt_bool (fst (random_sample (gen w))) p,
        World (snd (random_sample (gen w))) (calls w ++ [EvChoice [p; 1 - p]])).
Proof.
  intros Hp0 Hp1. unfold NumPy.random_choice.
  cbn [length Nat.eqb negb existsb orb].
  assert (E1 : Qlt_bool p 0 = false) by (apply Qlt_bool_false_iff; exact Hp0).
  assert (E2 : Qlt_bool (1 - p) 0 = false) by (apply Qlt_bool_false_iff; lra).
  rewrite E1, E2. cbn [orb fold_left].
  assert (E3 : Qlt_bool NumPy.atol (Qabs (0 + p + (1 - p) - 1)) = false).
  { apply Qlt_bool_false_iff.
    assert (Hz : 0 + p + (1 - p) - 1 == 0) by ring.
    rewrite Hz. discriminate. }
  rewrite E3.
  unfold bind, record, NumPy.draw_sample, ret. cbn [gen calls].
  pose proof (random_sample_unit (gen w)) as [Hu0 Hu1].
  destruct (random_sample (gen w)) as [u g] eqn:Eu. cbn [fst snd] in *.
  unfold NumPy.cumsum. cbn [NumPy.cumsum_from map last NumPy.searchsorted_right].
  assert (Hc1 : Qle_bool ((0 + p + (1 - p)) / (0 + p + (1 - p))) u = false).
  { apply Qle_bool_false_iff.
    assert (Hone : (0 + p + (1 - p)) / (0 + p + (1 - p)) == 1) by (field; lra).
    rewrite Hone. exact Hu1. }
  rewrite Hc1.
  assert (Hc0 : Qle_bool ((0 + p) / (0 + p + (1 - p))) u = negb (Qlt_bool u p)).
  { unfold Qlt_bool. rewrite negb_involutive.
    assert (Hr : (0 + p) / (0 + p + (1 - p)) == p) by (field; lra).
    destruct (Qle_bool p u) eqn:E.
    - apply Qle_bool_iff. rewrite Hr. apply Qle_bool_iff. exact E.
    - apply Qle_bool_false_iff. rewrite Hr. apply Qle_bool_false_iff. exact E. }
  rewrite Hc0. destruct (Qlt_bool u p); reflexivity.
Qed.

Lemma accept_downhill newsamp oldsamp paramrange (P : density) newprob oldprob (w : world G) :
  in_range newsamp paramrange = true ->
  P newsamp = Ok newprob -> P oldsamp = Ok oldprob ->
  0 <= newprob -> newprob < oldprob ->
  length newsamp = length oldsamp ->
  let ratio := newprob / oldprob in
  let u := fst (random_sample (gen w)) in
  accept newsamp oldsamp paramrange P w =
    Ok ((Qlt_bool u ratio, mixture (Qlt_bool u ratio) newsamp oldsamp),
        World (snd (random_sample (gen w)))
              (calls w ++ [EvDensity newsamp newprob; EvDensity oldsamp oldprob;
                           EvChoice [ratio; 1 - ratio]])).
Proof.
  intros E Hn Ho H0 Hlt Hlen ratio u.
  unfold accept. rewrite E. cbn [negb].
  unfold call_density, bind at 1 2 3 4 5 6, lift, record, ret.
  rewrite Hn, Ho. cbn [gen calls].
  apply Qle_bool_false_iff in Hlt as Hb. rewrite Hb.
  unfold truediv.
  assert (Hz : Qeq_bool oldprob 0 = false).
  { destruct (Qeq_bool oldprob 0) eqn:Ez; [|reflexivity].
    apply Qeq_bool_iff in Ez. lra. }
  rewrite Hz. unfold bind at 1.
  assert (Hr0 : 0 <= ratio).
  { unfold ratio. apply Qle_shift_div_l; lra. }
  assert (Hr1 : ratio < 1).
  { unfold ratio. apply Qlt_shift_div_r; lra. }
  fold ratio. unfold bind at 1. rewrite (choice_two ratio _ Hr0 Hr1).
  cbn [gen calls fst snd]. fold u.
  unfold bind, NumPy.add, NumPy.broadcast, NumPy.scale.
  rewrite !length_map, Hlen, Nat.eqb_refl.
  rewrite <- !app_assoc. reflexivity.
Qed.

End AcceptFacts.

(** ** Independence from the call history *)

Section Framing.
Context {G : Type} `{RandomState G}.

Lemma framed_ret {A} (a : A) : framed (@ret G A a).
Proof. intros g l. cbn. rewrite app_nil_r. reflexivity. Qed.

Lemma framed_raise {A} (e : exn) : framed (@raise G A e).
Proof. intros g l. reflexivity. Qed.

Lemma framed_lift {A} (r : result A) : framed (@lift G A r).
Proof. intros g l. destruct r; cbn; [rewrite app_nil_r|]; reflexivity. Qed.

Lemma framed_record (e : event) : framed (@record G e).
Proof. intros g l. reflexivity. Qed.

Lemma framed_bind {A B} (c : M G A) (k : A -> M G B) :
  framed c -> (forall a, framed (k a)) -> framed (bind c k).
Proof.
  intros Hc Hk g l. unfold bind. rewrite (Hc g l).
  destruct (c (World g [])) as [[a [g1 l1]]|e]; [|reflexivity].
  cbn [gen calls]. rewrite (Hk a g1 (l ++ l1)), (Hk a g1 l1).
  destruct (k a (World g1 [])) as [[b [g2 l2]]|e]; [|reflexivity].
  cbn [gen calls]. rewrite app_assoc. reflexivity.
Qed.

Lemma framed_draw_sample : framed (@NumPy.draw_sample G _).
Proof.
  intros g l. unfold NumPy.draw_sample. cbn [gen calls].
  destruct (random_sample g). cbn. rewrite app_nil_r. reflexivity.
Qed.

Lemma framed_draw_normal : framed (@NumPy.draw_normal G _).
Proof.
  intros g l. unfold NumPy.draw_normal. cbn [gen calls].
  destruct (standard_normal g). cbn. rewrite app_nil_r. reflexivity.
Qed.

Lemma framed_comprehension {A B} (f : A -> M G B) (xs : list A) :
  (forall x, framed (f x)) -> framed (comprehension f xs).
Proof.
  intros Hf. induction xs as [|x xs IH]; cbn [comprehension].
  - apply framed_ret.
  - apply framed_bind; [apply Hf|]. intros y.
    apply framed_bind; [exact IH|]. intros ys. apply framed_ret.
Qed.

Lemma framed_for_range {S} (n : nat) (body : S -> M G S) (st : S) :
  (forall s, framed (body s)) -> framed (for_range n body st).
Proof.
  intros Hb. revert st. induction n as [|n IH]; intros st; cbn [for_range].
  - apply framed_ret.
  - apply framed_bind; [apply Hb | exact IH].
Qed.

Ltac framing :=
  repeat first
    [ apply framed_ret | apply framed_raise | apply framed_lift
    | apply framed_record | apply framed_draw_sample | apply framed_draw_normal
    | apply framed_bind; [|intro]
    | apply framed_comprehension; intro
    | apply framed_for_range; intro ].

Lemma framed_random_uniform low high : framed (@NumPy.random_uniform G _ low high).
Proof. unfold NumPy.random_uniform. framing. Qed.

Lemma framed_random_normal loc scale size :
  framed (@NumPy.random_normal G _ loc scale size).
Proof.
  unfold NumPy.random_normal. destruct (Qlt_bool scale 0); framing.
Qed.

Lemma framed_random_choice {A} (a : list A) (p : list Q) :
  framed (@NumPy.random_choice G _ A a p).
Proof.
  unfold NumPy.random_choice.
  repeat match goal with |- framed (if ?b then _ else _) => destruct b end;
    framing.
  destruct (nth_error a _); framing.
Qed.

Lemma framed_call_density P samp : framed (@call_density G P samp).
Proof. unfold call_density. framing. Qed.

Lemma framed_proposal oldsamp sigmaprop D :
  framed (@proposal G _ oldsamp sigmaprop D).
Proof.
  unfold proposal. apply framed_bind; [apply framed_random_normal|].
  intro. framing.
Qed.

Lemma framed_accept newsamp oldsamp paramrange P :
  framed (@accept G _ newsamp oldsamp paramrange P).
Proof.
  unfold accept. destruct (negb _); [framing|].
  apply framed_bind; [apply framed_call_density|]. intro newprob.
  apply framed_bind; [apply framed_call_density|]. intro oldprob.
  destruct (Qle_bool oldprob newprob); [framing|].
  apply framed_bind; [framing|]. intro prob.
  apply framed_bind; [apply framed_random_choice|]. intro acc.
  framing.
Qed.

Lemma framed_chain_body paramrange sigmaprop D P st :
  framed (@chain_body G _ paramrange sigmaprop D P st).
Proof.
  unfold chain_body. apply framed_bind; [apply framed_proposal|].
  intro newsamp. apply framed_bind; [apply framed_accept|].
  intros [acc x']. framing.
Qed.

Lemma framed_initial_sample paramrange D :
  framed (@initial_sample G _ paramrange D).
Proof.
  unfold initial_sample. apply framed_comprehension. intro d.
  destruct (nth_error paramrange d) as [[low high]|];
    [apply framed_random_uniform | apply framed_raise].
Qed.

Lemma framed_run_chain steps paramrange sigmaprop D P :
  framed (@run_chain G _ steps paramrange sigmaprop D P).
Proof.
  unfold run_chain. apply framed_bind; [apply framed_initial_sample|].
  intro oldsamp. apply framed_bind.
  - apply framed_for_range. intro. apply framed_chain_body.
  - intro st. framing.
Qed.

End Framing.

(** ** Lists and comprehensions *)

Lemma same_value_length (s t : sample) : same_value s t -> length s = length t.
Proof. induction 1; cbn; congruence. Qed.

Lemma same_value_nth (s t : sample) d v :
  same_value s t -> nth_error s d = Some v ->
  exists v', nth_error t d = Some v' /\ v == v'.
Proof.
  intros Hst. revert d. induction Hst as [|x y s t Hxy Hst IH]; intros [|d] E;
    try discriminate; cbn in *.
  - injection E as <-. eauto.
  - apply IH. exact E.
Qed.

Lemma skipn_nth_error {A} (l : list A) (s : nat) (a : A) :
  nth_error l s = Some a -> skipn s l = a :: skipn (S s) l.
Proof.
  revert l. induction s as [|s IH]; intros [|x l] E; try discriminate.
  - injection E as <-. reflexivity.
  - cbn in E. rewrite (skipn_cons s x l). apply IH. exact E.
Qed.

Lemma mixture_length acc newsamp oldsamp :
  length newsamp = length oldsamp ->
  length (mixture acc newsamp oldsamp) = length oldsamp.
Proof.
  intros Hlen. unfold mixture, NumPy.scale.
  rewrite length_map, length_combine, !length_map, Hlen. apply Nat.min_id.
Qed.

Lemma add_same_length (a b : sample) :
  length a = length b ->
  NumPy.add a b = Ok (map (fun '(x, y) => x + y) (combine a b)).
Proof.
  intros Hlen. unfold NumPy.add, NumPy.broadcast.
  rewrite Hlen, Nat.eqb_refl. reflexivity.
Qed.

Section Comprehension.
Context {G : Type} {A B : Type} (f : A -> M G B).

Lemma comprehension_length xs (w : world G) ys w' :
  comprehension f xs w = Ok (ys, w') -> length ys = length xs.
Proof.
  revert w ys w'. induction xs as [|x xs IH]; intros w ys w'; cbn [comprehension].
  - intros [= <- <-]. reflexivity.
  - unfold bind at 1. destruct (f x w) as [[y w1]|]; [|discriminate].
    unfold bind at 1. destruct (comprehension f xs w1) as [[ys1 w2]|] eqn:E;
      [|discriminate].
    intros [= <- <-]. cbn. f_equal. eapply IH. exact E.
Qed.

Lemma comprehension_silent xs (w : world G) ys w' :
  (forall x y w w', f x w = Ok (y, w') -> calls w' = calls w) ->
  comprehension f xs w = Ok (ys, w') -> calls w' = calls w.
Proof.
  intros Hf. revert w ys w'.
  induction xs as [|x xs IH]; intros w ys w'; cbn [comprehension].
  - intros [= <- <-]. reflexivity.
  - unfold bind at 1. destruct (f x w) as [[y w1]|] eqn:E1; [|discriminate].
    unfold bind at 1. destruct (comprehension f xs w1) as [[ys1 w2]|] eqn:E;
      [|discriminate].
    intros [= <- <-]. rewrite (IH _ _ _ E). eapply Hf. exact E1.
Qed.

Lemma comprehension_total xs (w : world G) :
  (forall x w, In x xs -> exists y w', f x w = Ok (y, w')) ->
  exists ys w', comprehension f xs w = Ok (ys, w').
Proof.
  revert w. induction xs as [|x xs IH]; intros w Hf; cbn [comprehension].
  - eexists _, _. reflexivity.
  - destruct (Hf x w (or_introl eq_refl)) as (y & w1 & E1).
    destruct (IH w1) as (ys & w2 & E2).
    { intros x0 w0 Hin. apply Hf. right. exact Hin. }
    unfold bind. rewrite E1, E2. eexists _, _. reflexivity.
Qed.

End Comprehension.

(** ** The draws of the driver *)

Section DriverFacts.
Context {G : Type} `{RandomState G}.

Lemma random_uniform_run low high (w : world G) :
  NumPy.random_uniform low high w =
    Ok (low + (high - low) * fst (random_sample (gen w)),
        World (snd (random_sample (gen w))) (calls w ++ [EvUniform low high])).
Proof.
  unfold NumPy.random_uniform, bind, record, NumPy.draw_sample, ret.
  cbn [gen calls]. destruct (random_sample (gen w)). reflexivity.
Qed.

Lemma random_normal_inv loc scale size (w : world G) eps w' :
  NumPy.random_normal loc scale size w = Ok (eps, w') ->
  length eps = size /\ calls w' = calls w ++ [EvNormal scale size].
Proof.
  unfold NumPy.random_normal. destruct (Qlt_bool scale 0); [discriminate|].
  unfold bind at 1, record. intros E. split.
  - apply comprehension_length in E. rewrite length_seq in E. exact E.
  - apply comprehension_silent in E; [exact E|].
    intros _ y w0 w0'. unfold bind, NumPy.draw_normal, ret.
    destruct (standard_normal (gen w0)). intros [= _ <-]. reflexivity.
Qed.

Lemma random_normal_total loc scale size (w : world G) :
  0 <= scale -> exists eps w', NumPy.random_normal loc scale size w = Ok (eps, w').
Proof.
  intros Hs. unfold NumPy.random_normal.
  apply Qlt_bool_false_iff in Hs. rewrite Hs.
  unfold bind at 1, record. apply comprehension_total.
  intros _ w0 _. unfold bind, NumPy.draw_normal, ret.
  destruct (standard_normal (gen w0)). eexists _, _. reflexivity.
Qed.

Lemma proposal_inv oldsamp sigmaprop D (w : world G) cand w1 :
  length oldsamp = D ->
  proposal oldsamp sigmaprop D w = Ok (cand, w1) ->
  length cand = D /\ calls w1 = calls w ++ [EvNormal sigmaprop D].
Proof.
  intros Hlen. unfold proposal, bind.
  destruct (NumPy.random_normal 0 sigmaprop D w) as [[eps w0]|] eqn:E;
    [|discriminate].
  apply random_normal_inv in E as [Heps Hcalls].
  rewrite add_same_length by congruence. unfold lift.
  intros [= <- <-]. split; [|exact Hcalls].
  rewrite length_map, length_combine, Hlen, Heps. apply Nat.min_id.
Qed.

Lemma proposal_total oldsamp sigmaprop D (w : world G) :
  0 <= sigmaprop -> length oldsamp = D ->
  exists cand w1, proposal oldsamp sigmaprop D w = Ok (cand, w1).
Proof.
  intros Hs Hlen. unfold proposal, bind.
  destruct (random_normal_total 0 sigmaprop D w Hs) as (eps & w0 & E).
  rewrite E. apply random_normal_inv in E as [Heps _].
  rewrite add_same_length by congruence. eexists _, _. reflexivity.
Qed.

Lemma initial_from_inv paramrange n : forall s (w : world G) x0 w0,
  initial_from paramrange s n w = Ok (x0, w0) ->
  length x0 = n /\
  calls w0 = calls w ++
             map (fun '(low, high) => EvUniform low high)
                 (firstn n (skipn s paramrange)) /\
  forall i v, nth_error x0 i = Some v ->
    exists low high u,
      nth_error paramrange (s + i) = Some (low, high) /\
      0 <= u /\ u < 1 /\ v = low + (high - low) * u.
Proof.
  unfold initial_from.
  induction n as [|n IH]; intros s w x0 w0; cbn [seq comprehension].
  - intros [= <- <-]. cbn. rewrite app_nil_r.
    repeat split. intros [|i] v E; discriminate.
  - unfold bind at 1.
    destruct (nth_error paramrange s) as [[low high]|] eqn:Es; [|discriminate].
    rewrite random_uniform_run.
    unfold bind at 1.
    destruct (comprehension _ (seq (S s) n) _) as [[xs w1]|] eqn:E; [|discriminate].
    intros [= <- <-].
    apply IH in E as (Hlen & Hcalls & Hnth). cbn [calls] in Hcalls.
    split; [cbn; congruence|]. split.
    + rewrite Hcalls, (skipn_nth_error _ _ _ Es). cbn [firstn map].
      rewrite <- app_assoc. reflexivity.
    + intros [|i] v E; cbn in E.
      * injection E as <-. rewrite Nat.add_0_r.
        destruct (random_sample_unit (gen w)) as [Hu0 Hu1].
        exists low, high, (fst (random_sample (gen w))). auto.
      * rewrite Nat.add_succ_r. apply (Hnth i v E).
Qed.

Lemma initial_from_total paramrange n : forall s (w : world G),
  (s + n <= length paramrange)%nat ->
  exists x0 w0, initial_from paramrange s n w = Ok (x0, w0).
Proof.
  intros s w Hle. unfold initial_from. apply comprehension_total.
  intros d w1 Hin. apply in_seq in Hin.
  destruct (nth_error paramrange d) as [[low high]|] eqn:E.
  - rewrite random_uniform_run. eexists _, _. reflexivity.
  - apply nth_error_None in E. lia.
Qed.

End DriverFacts.

(** ** What a returning call of [accept] has done *)

Section AcceptInversion.
Context {G : Type} `{RandomState G}.

Lemma random_choice_calls {A} (a : list A) p (w : world G) x w' :
  NumPy.random_choice a p w = Ok (x, w') -> calls w' = calls w ++ [EvChoice p].
Proof.
  unfold NumPy.random_choice.
  repeat match goal with
         | |- (if ?b then _ else _) _ = _ -> _ => destruct b; [discriminate|]
         end.
  unfold bind, record, NumPy.draw_sample. cbn [gen calls].
  destruct (random_sample (gen w)) as [u g].
  destruct (nth_error a _); [|discriminate].
  intros [= _ <-]. reflexivity.
Qed.

Lemma accept_inv cand x paramrange P (w : world G) acc x' w' :
  length cand = length x ->
  accept cand x paramrange P w = Ok ((acc, x'), w') ->
  same_value x' (if acc then cand else x) /\
  (acc = true -> in_range cand paramrange = true) /\
  (calls w' = calls w \/
   (exists newprob oldprob,
       oldprob <= newprob /\
       calls w' = calls w ++ [EvDensity cand newprob; EvDensity x oldprob]) \/
   (exists newprob oldprob,
       newprob < oldprob /\
       calls w' = calls w ++ [EvDensity cand newprob; EvDensity x oldprob;
                              EvChoice [newprob / oldprob; 1 - newprob / oldprob]])).
Proof.
  intros Hlen. unfold accept.
  destruct (in_range cand paramrange) eqn:E; cbn [negb].
  - unfold call_density, bind at 1 2 3 4 5 6, lift, record, ret.
    destruct (P cand) as [newprob|]; [|discriminate].
    destruct (P x) as [oldprob|]; [|discriminate].
    cbn [gen calls].
    destruct (Qle_bool oldprob newprob) eqn:Ele.
    + intros [= <- <- <-]. split; [apply same_value_refl|]. split; [auto|].
      right; left. exists newprob, oldprob. apply Qle_bool_iff in Ele.
      cbn [calls]. rewrite <- app_assoc. auto.
    + unfold truediv. destruct (Qeq_bool oldprob 0); [discriminate|].
      unfold bind at 1 2.
      destruct (NumPy.random_choice _ _ _) as [[a w1]|] eqn:Ech; [|discriminate].
      rewrite add_same_length
        by (unfold NumPy.scale; rewrite !length_map; exact Hlen).
      unfold bind. intros [= <- <- <-].
      split; [apply (mixture_value a cand x Hlen)|]. split; [auto|].
      right; right. exists newprob, oldprob. apply Qle_bool_false_iff in Ele.
      apply random_choice_calls in Ech. cbn [calls] in Ech.
      rewrite Ech, <- !app_assoc. auto.
  - intros [= <- <- <-]. split; [apply same_value_refl|].
    split; [discriminate|]. left. reflexivity.
Qed.

Lemma accept_total cand x paramrange P (w : world G) :
  valid_density P -> length cand = length x ->
  exists acc x' w', accept cand x paramrange P w = Ok ((acc, x'), w').
Proof.
  intros HP Hlen.
  destruct (in_range cand paramrange) eqn:E.
  - destruct (HP cand) as (newprob & Hn & Hn0).
    destruct (HP x) as (oldprob & Ho & Ho0).
    destruct (Qlt_le_dec newprob oldprob) as [Hlt|Hle].
    + pose proof (accept_downhill cand x paramrange P newprob oldprob w
                                  E Hn Ho Hn0 Hlt Hlen) as Hrun.
      cbv zeta in Hrun. rewrite Hrun. eexists _, _, _. reflexivity.
    + rewrite (accept_uphill cand x paramrange P newprob oldprob w E Hn Ho Hle).
      eexists _, _, _. reflexivity.
  - rewrite (accept_out_of_range _ _ _ _ _ E). eexists _, _, _. reflexivity.
Qed.

End AcceptInversion.

(** ** The loop of the driver *)

Lemma count_true_cons (acc : bool) (accs : list bool) :
  count_true (acc :: accs) = ((if acc then 1 else 0) + count_true accs)%Z.
Proof. unfold count_true. destruct acc; cbn [filter length]; lia. Qed.

Lemma count_true_bounds (accs : list bool) :
  (0 <= count_true accs <= Z.of_nat (length accs))%Z.
Proof.
  unfold count_true. pose proof (filter_length_le (fun b : bool => b) accs). lia.
Qed.

Lemma inject_Z_eq_bool_0 (z : Z) : Qeq_bool (inject_Z z) 0 = (z =? 0)%Z.
Proof. unfold Qeq_bool, inject_Z. cbn. rewrite Z.mul_1_r. reflexivity. Qed.

Section LoopFacts.
Context {G : Type} `{RandomState G}.
Variables (paramrange : paramrange_t) (sigmaprop : Q) (D : nat) (P : density).

Lemma chain_body_inv st (w : world G) st' w' :
  chain_body paramrange sigmaprop D P st w = Ok (st', w') ->
  exists cand w1 acc x',
    proposal (cs_oldsamp st) sigmaprop D w = Ok (cand, w1) /\
    accept cand (cs_oldsamp st) paramrange P w1 = Ok ((acc, x'), w') /\
    st' = ChainState x'
                     (if acc then (cs_count st + 1)%Z else cs_count st)
                     (cs_samples st ++ [x']).
Proof.
  unfold chain_body, bind.
  destruct (proposal _ _ _ w) as [[cand w1]|] eqn:Ep; [|discriminate].
  destruct (accept _ _ _ _ w1) as [[[acc x'] w2]|] eqn:Ea; [|discriminate].
  unfold ret. intros [= <- <-]. exists cand, w1, acc, x'. auto.
Qed.

Lemma for_range_steps n : forall st (w : world G) st' w',
  for_range n (chain_body paramrange sigmaprop D P) st w = Ok (st', w') ->
  exists accs xs,
    chain_steps paramrange sigmaprop D P n (cs_oldsamp st) w accs xs w' /\
    cs_count st' = (cs_count st + count_true accs)%Z /\
    cs_samples st' = cs_samples st ++ xs.
Proof.
  induction n as [|n IH]; intros st w st' w'; cbn [for_range].
  - intros [= <- <-]. exists [], []. split; [constructor|].
    rewrite app_nil_r. split; [cbn; lia | reflexivity].
  - unfold bind at 1.
    destruct (chain_body _ _ _ _ st w) as [[st1 w1]|] eqn:Eb; [|discriminate].
    intros Hrest. apply chain_body_inv in Eb as (cand & w0 & acc & x' & Ep & Ea & ->).
    apply IH in Hrest as (accs & xs & Hsteps & Hcount & Hsamples).
    cbn [cs_oldsamp cs_count cs_samples] in *.
    exists (acc :: accs), (x' :: xs). split; [econstructor; eassumption|].
    split.
    + rewrite Hcount, count_true_cons. destruct acc; lia.
    + rewrite Hsamples, <- app_assoc. reflexivity.
Qed.

Lemma chain_steps_length n x (w : world G) accs xs w' :
  chain_steps paramrange sigmaprop D P n x w accs xs w' ->
  length accs = n /\ length xs = n.
Proof. induction 1; cbn; [auto | lia]. Qed.

Lemma chain_steps_bounds n x (w : world G) accs xs w' :
  chain_steps paramrange sigmaprop D P n x w accs xs w' ->
  length x = D -> within_bounds x paramrange ->
  Forall (fun s => length s = D /\ within_bounds s paramrange) xs.
Proof.
  induction 1 as [|n x w cand w1 acc x' w2 accs xs w3 Ep Ea Hsteps IH];
    intros Hlen Hin; [constructor|].
  apply (proposal_inv _ _ _ _ _ _ Hlen) in Ep as [Hcand _].
  apply accept_inv in Ea as (Hval & Hacc & _); [|congruence].
  assert (Hx' : length x' = D /\ within_bounds x' paramrange).
  { split.
    - apply same_value_length in Hval. destruct acc; congruence.
    - intros d v low high Hv Hp.
      destruct (same_value_nth _ _ _ _ Hval Hv) as (v' & Hv' & Heq).
      destruct acc.
      + specialize (Hacc eq_refl). apply in_range_iff in Hacc.
        destruct (Hacc d v' low high Hv' Hp). lra.
      + destruct (Hin d v' low high Hv' Hp). lra. }
  constructor; [exact Hx'|]. apply IH; apply Hx'.
Qed.

Lemma chain_steps_calls n x (w : world G) accs xs w' :
  chain_steps paramrange sigmaprop D P n x w accs xs w' ->
  length x = D ->
  exists per_step,
    calls w' = calls w ++ concat per_step /\
    length per_step = n /\
    Forall (step_calls sigmaprop D) per_step.
Proof.
  induction 1 as [|n x w cand w1 acc x' w2 accs xs w3 Ep Ea Hsteps IH];
    intros Hlen.
  - exists []. cbn. rewrite app_nil_r. auto.
  - apply (proposal_inv _ _ _ _ _ _ Hlen) in Ep as [Hcand Hc1].
    apply accept_inv in Ea as (Hval & _ & Hc2); [|congruence].
    destruct IH as (rest & Hc3 & Hn & Hall).
    { apply same_value_length in Hval. destruct acc; congruence. }
    destruct Hc2 as [Hc2|[(v' & v & Hle & Hc2)|(v' & v & Hlt & Hc2)]].
    + exists ([EvNormal sigmaprop D] :: rest).
      split; [|split; [cbn; congruence | constructor; [constructor | exact Hall]]].
      rewrite Hc3, Hc2, Hc1. cbn [concat]. rewrite <- !app_assoc. reflexivity.
    + exists ([EvNormal sigmaprop D; EvDensity cand v'; EvDensity x v] :: rest).
      split; [|split; [cbn; congruence
                      | constructor; [constructor; exact Hle | exact Hall]]].
      rewrite Hc3, Hc2, Hc1. cbn [concat]. rewrite <- !app_assoc. reflexivity.
    + exists ([EvNormal sigmaprop D; EvDensity cand v'; EvDensity x v;
               EvChoice [v' / v; 1 - v' / v]] :: rest).
      split; [|split; [cbn; congruence
                      | constructor; [constructor; exact Hlt | exact Hall]]].
      rewrite Hc3, Hc2, Hc1. cbn [concat]. rewrite <- !app_assoc. reflexivity.
Qed.

Lemma for_range_total n : forall st (w : world G),
  valid_density P -> 0 <= sigmaprop -> length (cs_oldsamp st) = D ->
  exists st' w',
    for_range n (chain_body paramrange sigmaprop D P) st w = Ok (st', w').
Proof.
  induction n as [|n IH]; intros st w HP Hs Hlen; cbn [for_range].
  - eexists _, _. reflexivity.
  - destruct (proposal_total (cs_oldsamp st) sigmaprop D w Hs Hlen)
      as (cand & w1 & Ep).
    pose proof (proposal_inv _ _ _ _ _ _ Hlen Ep) as [Hcand _].
    destruct (accept_total cand (cs_oldsamp st) paramrange P w1 HP)
      as (acc & x' & w2 & Ea); [congruence|].
    pose proof (accept_inv _ _ _ _ _ _ _ _ (eq_trans Hcand (eq_sym Hlen)) Ea)
      as (Hval & _ & _).
    unfold bind at 1. unfold chain_body at 1. unfold bind at 1.
    rewrite Ep. unfold bind at 1. rewrite Ea. unfold ret at 1.
    apply IH; [exact HP | exact Hs|]. cbn [cs_oldsamp].
    apply same_value_length in Hval. destruct acc; congruence.
Qed.

Lemma run_chain_inv steps (w : world G) trace ar w' :
  run_chain steps paramrange sigmaprop D P w = Ok ((trace, ar), w') ->
  exists x0 w0 accs xs,
    initial_sample paramrange D w = Ok (x0, w0) /\
    chain_steps paramrange sigmaprop D P (Z.to_nat steps) x0 w0 accs xs w' /\
    trace = x0 :: xs /\
    steps <> 0%Z /\
    ar = 1 * inject_Z (count_true accs) / inject_Z steps.
Proof.
  unfold run_chain. unfold bind at 1.
  destruct (initial_sample paramrange D w) as [[x0 w0]|] eqn:Ei; [|discriminate].
  unfold bind at 1.
  destruct (for_range _ _ _ w0) as [[st w1]|] eqn:El; [|discriminate].
  apply for_range_steps in El as (accs & xs & Hsteps & Hcount & Hsamples).
  cbn [cs_oldsamp cs_count cs_samples] in *.
  unfold bind, lift, truediv. rewrite inject_Z_eq_bool_0.
  destruct (Z.eqb_spec steps 0) as [|Hne]; [discriminate|].
  unfold ret. intros [= <- <- <-].
  exists x0, w0, accs, xs. rewrite Hcount, Hsamples. auto.
Qed.

End LoopFacts.

(** ** The example densities are valid *)

Lemma valid_flat : valid_density flat.
Proof. intros samp. exists 1. split; [reflexivity | discriminate]. Qed.

Lemma valid_tent : valid_density tent.
Proof.
  intros samp. unfold tent.
  destruct (Qle_bool (Qabs (hd 0 samp)) 1) eqn:E.
  - eexists. split; [reflexivity|]. apply Qle_bool_iff in E. lra.
  - exists 0. split; [reflexivity | discriminate].
Qed.

Lemma valid_bump : valid_density bump.
Proof.
  intros samp. unfold bump. eexists. split; [reflexivity|].
  rewrite Qred_correct. set (x := hd 0 samp).
  assert (Hsq : 0 <= x * x) by nra.
  apply Qle_shift_div_l; lra.
Qed.

(** * Properties of the sampler *)

Section Claims.
Context {G : Type} `{RandomState G}.

(** C1 (as amended): for every step count N >= 1, every parameter range with
    at least D rows, every step size sigmaprop >= 0 and every density
    evaluator that never fails and is non-negative, [run_chain] returns, and
    the trace it returns has length N + 1. *)
Theorem run_chain_trace_length
        (steps : Z) (paramrange : paramrange_t) (sigmaprop : Q) (D : nat)
        (P : density) (w : world G) :
  (1 <= steps)%Z ->
  (D <= length paramrange)%nat ->
  0 <= sigmaprop ->
  valid_density P ->
  exists trace ar w',
    run_chain steps paramrange sigmaprop D P w = Ok ((trace, ar), w') /\
    Z.of_nat (length trace) = (steps + 1)%Z.
Proof.
  intros Hsteps HD Hsigma HP.
  destruct (initial_from_total paramrange D 0 w HD) as (x0 & w0 & Ei).
  change (initial_sample paramrange D w = Ok (x0, w0)) in Ei.
  pose proof (initial_from_inv paramrange D 0%nat w x0 w0 Ei) as (Hlen & _ & _).
  destruct (for_range_total paramrange sigmaprop D P (Z.to_nat steps)
              (ChainState x0 0%Z [x0]) w0 HP Hsigma Hlen) as (st & w1 & El).
  pose proof (for_range_steps _ _ _ _ _ _ _ _ _ El) as (accs & xs & Hst & _ & Hsam).
  apply chain_steps_length in Hst as [_ Hxs].
  cbn [cs_samples] in Hsam.
  exists (cs_samples st), (1 * inject_Z (cs_count st) / inject_Z steps), w1.
  split.
  - unfold run_chain, bind. rewrite Ei, El.
    unfold lift, truediv. rewrite inject_Z_eq_bool_0.
    destruct (Z.eqb_spec steps 0); [lia | reflexivity].
  - rewrite Hsam. cbn [app length]. lia.
Qed.

(** C9: with steps = 0 [run_chain] never returns a trace; whenever the
    initial draw succeeds (the range has at least D rows) the call ends in
    the ZeroDivisionError of the acceptance ratio. *)
Theorem run_chain_zero_steps
        (paramrange : paramrange_t) (sigmaprop : Q) (D : nat)
        (P : density) (w : world G) :
  (forall r, run_chain 0 paramrange sigmaprop D P w <> Ok r) /\
  ((D <= length paramrange)%nat ->
   run_chain 0 paramrange sigmaprop D P w = Raise ZeroDivisionError).
Proof.
  split.
  - intros [[trace ar] w'] E. apply run_chain_inv in E.
    destruct E as (_ & _ & _ & _ & _ & _ & _ & Hne & _). apply Hne. reflexivity.
  - intros HD.
    destruct (initial_from_total paramrange D 0 w HD) as (x0 & w0 & Ei).
    change (initial_sample paramrange D w = Ok (x0, w0)) in Ei.
    unfold run_chain, bind. rewrite Ei. reflexivity.
Qed.

(** C2: for a candidate that passes the bounds test and a current state of
    the same dimension, with non-negative densities, [accept] returns
    normally (in particular no division by zero is raised); and when the
    density of the candidate is zero while that of the current state is
    positive the candidate is rejected, the returned state being the current
    one in value. *)
Theorem accept_no_zero_division
        (newsamp oldsamp : sample) (paramrange : paramrange_t) (P : density)
        (newprob oldprob : Q) (w : world G) :
  strictly_inside newsamp paramrange ->
  length newsamp = length oldsamp ->
  P newsamp = Ok newprob -> P oldsamp = Ok oldprob ->
  0 <= newprob -> 0 <= oldprob ->
  (exists acc s w', accept newsamp oldsamp paramrange P w = Ok ((acc, s), w')) /\
  accept newsamp oldsamp paramrange P w <> Raise ZeroDivisionError /\
  (newprob == 0 -> 0 < oldprob ->
   exists s w',
     accept newsamp oldsamp paramrange P w = Ok ((false, s), w') /\
     same_value s oldsamp).
Proof.
  intros Hin Hlen Hn Ho Hn0 Ho0. apply in_range_iff in Hin.
  assert (Hok : exists acc s w',
             accept newsamp oldsamp paramrange P w = Ok ((acc, s), w')).
  { destruct (Qlt_le_dec newprob oldprob) as [Hlt|Hle].
    - pose proof (accept_downhill newsamp oldsamp paramrange P newprob oldprob w
                                  Hin Hn Ho Hn0 Hlt Hlen) as Hrun.
      cbv zeta in Hrun. rewrite Hrun. eexists _, _, _. reflexivity.
    - rewrite (accept_uphill _ _ _ _ _ _ w Hin Hn Ho Hle).
      eexists _, _, _. reflexivity. }
  split; [exact Hok|]. split.
  - destruct Hok as (acc & s & w' & E). rewrite E. discriminate.
  - intros Hzero Hpos.
    assert (Hlt : newprob < oldprob) by lra.
    pose proof (accept_downhill newsamp oldsamp paramrange P newprob oldprob w
                                Hin Hn Ho Hn0 Hlt Hlen) as Hrun.
    cbv zeta in Hrun.
    assert (Hrej : Qlt_bool (fst (random_sample (gen w))) (newprob / oldprob) = false).
    { apply Qlt_bool_false_iff.
      destruct (random_sample_unit (gen w)) as [Hu0 _].
      assert (Hr : newprob / oldprob == 0) by (rewrite Hzero; field; lra).
      rewrite Hr. exact Hu0. }
    rewrite Hrej in Hrun. rewrite Hrun. eexists _, _. split; [reflexivity|].
    apply (mixture_value false newsamp oldsamp Hlen).
Qed.

(** C3: a candidate with a component on or beyond an endpoint of its
    interval (below or at low[d], at or above high[d]) is rejected by
    [accept] whatever the density evaluator is: the result is
    (False, oldsamp) and the world is unchanged, so the density was not
    evaluated and nothing was drawn.  In the driver, a step whose proposal is
    such a candidate appends the previous state to the trace and leaves the
    acceptance counter as it was. *)
Theorem out_of_range_rejected
        (newsamp oldsamp : sample) (paramrange : paramrange_t) (P : density)
        (w : world G) (d : nat) :
  component_outside newsamp paramrange d ->
  accept newsamp oldsamp paramrange P w = Ok ((false, oldsamp), w) /\
  forall sigmaprop D st w0,
    cs_oldsamp st = oldsamp ->
    proposal oldsamp sigmaprop D w0 = Ok (newsamp, w) ->
    chain_body paramrange sigmaprop D P st w0 =
      Ok (ChainState oldsamp (cs_count st) (cs_samples st ++ [oldsamp]), w).
Proof.
  intros Hout. apply outside_not_in_range in Hout.
  split; [apply accept_out_of_range; exact Hout|].
  intros sigmaprop D st w0 Hst Hprop.
  unfold chain_body, bind. rewrite Hst, Hprop.
  rewrite (accept_out_of_range _ _ _ _ _ Hout). reflexivity.
Qed.

(** C4: for a candidate that passes the bounds test with
    0 <= P(x') < P(x), [accept] evaluates both densities, makes exactly one
    draw u of the uniform variate through [choice] with
    p = [ratio, 1 - ratio], ratio = P(x')/P(x), and accepts iff u < ratio;
    the returned state is the candidate on acceptance and the current state
    on rejection, both in value. *)
Theorem accept_downhill_draw
        (newsamp oldsamp : sample) (paramrange : paramrange_t) (P : density)
        (newprob oldprob : Q) (w : world G) :
  strictly_inside newsamp paramrange ->
  length newsamp = length oldsamp ->
  P newsamp = Ok newprob -> P oldsamp = Ok oldprob ->
  0 <= newprob -> newprob < oldprob ->
  let ratio := newprob / oldprob in
  let u := fst (random_sample (gen w)) in
  exists acc s,
    accept newsamp oldsamp paramrange P w =
      Ok ((acc, s),
          World (snd (random_sample (gen w)))
                (calls w ++ [EvDensity newsamp newprob; EvDensity oldsamp oldprob;
                             EvChoice [ratio; 1 - ratio]])) /\
    (acc = true <-> u < ratio) /\
    (acc = true -> same_value s newsamp) /\
    (acc = false -> same_value s oldsamp).
Proof.
  intros Hin Hlen Hn Ho Hn0 Hlt ratio u. apply in_range_iff in Hin.
  exists (Qlt_bool u ratio), (mixture (Qlt_bool u ratio) newsamp oldsamp).
  split; [|split; [|split]].
  - exact (accept_downhill _ _ _ _ _ _ w Hin Hn Ho Hn0 Hlt Hlen).
  - apply Qlt_bool_iff.
  - intros E. rewrite E. apply (mixture_value true _ _ Hlen).
  - intros E. rewrite E. apply (mixture_value false _ _ Hlen).
Qed.

(** C5: for a candidate that passes the bounds test with P(x') >= P(x),
    [accept] returns (True, x'), the candidate itself; the generator is left
    as it was and the only calls made are the two density evaluations. *)
Theorem accept_uphill_deterministic
        (newsamp oldsamp : sample) (paramrange : paramrange_t) (P : density)
        (newprob oldprob : Q) (w : world G) :
  strictly_inside newsamp paramrange ->
  P newsamp = Ok newprob -> P oldsamp = Ok oldprob ->
  oldprob <= newprob ->
  accept newsamp oldsamp paramrange P w =
    Ok ((true, newsamp),
        World (gen w)
              (calls w ++ [EvDensity newsamp newprob; EvDensity oldsamp oldprob])).
Proof.
  intros Hin Hn Ho Hle. apply in_range_iff in Hin.
  exact (accept_uphill _ _ _ _ _ _ w Hin Hn Ho Hle).
Qed.

(** C10: when the density of the current state is zero, every candidate that
    passes the bounds test and has a non-negative density, zero included, is
    accepted: [accept] returns (True, x'). *)
Theorem accept_from_zero_density
        (newsamp oldsamp : sample) (paramrange : paramrange_t) (P : density)
        (newprob oldprob : Q) (w : world G) :
  strictly_inside newsamp paramrange ->
  P newsamp = Ok newprob -> P oldsamp = Ok oldprob ->
  oldprob == 0 -> 0 <= newprob ->
  exists w', accept newsamp oldsamp paramrange P w = Ok ((true, newsamp), w').
Proof.
  intros Hin Hn Ho Hz Hn0. apply in_range_iff in Hin.
  assert (Hle : oldprob <= newprob) by lra.
  rewrite (accept_uphill _ _ _ _ _ _ w Hin Hn Ho Hle). eexists. reflexivity.
Qed.

(** C6: when every interval of the D-dimensional range has low <= high,
    every state of a trace returned by [run_chain], the initial one and each
    of the following entries, has D components and satisfies
    low[d] <= state[d] <= high[d] in every dimension d. *)
Theorem trace_within_bounds
        (steps : Z) (paramrange : paramrange_t) (sigmaprop : Q) (D : nat)
        (P : density) (w : world G) trace ar w' :
  valid_range paramrange D ->
  run_chain steps paramrange sigmaprop D P w = Ok ((trace, ar), w') ->
  Forall (fun s => length s = D /\ within_bounds s paramrange) trace.
Proof.
  intros [_ Hvalid] Erun.
  apply run_chain_inv in Erun as (x0 & w0 & accs & xs & Ei & Hsteps & -> & _ & _).
  change (initial_from paramrange 0 D w = Ok (x0, w0)) in Ei.
  apply initial_from_inv in Ei as (Hlen & _ & Hnth).
  assert (Hx0 : within_bounds x0 paramrange).
  { intros d v low high Hv Hp.
    destruct (Hnth d v Hv) as (low' & high' & u & Hp' & Hu0 & Hu1 & ->).
    cbn [Nat.add] in Hp'. rewrite Hp in Hp'. injection Hp' as <- <-.
    assert (Hd : (d < D)%nat).
    { rewrite <- Hlen. apply nth_error_Some. congruence. }
    pose proof (Hvalid d low high Hd Hp) as Hle.
    split; nra. }
  constructor; [auto|].
  exact (chain_steps_bounds _ _ _ _ _ _ _ _ _ _ Hsteps Hlen Hx0).
Qed.

(** C7: for N >= 1, a returning run of [run_chain] consists of the initial
    draw followed by N proposal/accept calls, and the acceptance ratio it
    returns is the number of those calls of [accept] that returned True,
    divided by N. *)
Theorem acceptance_ratio_counts
        (steps : Z) (paramrange : paramrange_t) (sigmaprop : Q) (D : nat)
        (P : density) (w : world G) trace ar w' :
  (1 <= steps)%Z ->
  run_chain steps paramrange sigmaprop D P w = Ok ((trace, ar), w') ->
  exists x0 w0 accs xs,
    initial_sample paramrange D w = Ok (x0, w0) /\
    chain_steps paramrange sigmaprop D P (Z.to_nat steps) x0 w0 accs xs w' /\
    trace = x0 :: xs /\
    Z.of_nat (length accs) = steps /\
    ar == inject_Z (count_true accs) / inject_Z steps /\
    0 <= ar /\ ar <= 1.
Proof.
  intros Hsteps Erun.
  apply run_chain_inv in Erun as (x0 & w0 & accs & xs & Ei & Hst & -> & _ & ->).
  exists x0, w0, accs, xs.
  pose proof (chain_steps_length _ _ _ _ _ _ _ _ _ _ Hst) as [Haccs _].
  pose proof (count_true_bounds accs) as [Hc0 Hc1].
  assert (Hq : 0 < inject_Z steps).
  { change (inject_Z 0 < inject_Z steps). rewrite <- Zlt_Qlt. lia. }
  repeat split; try assumption; try reflexivity.
  - lia.
  - rewrite Qmult_1_l. reflexivity.
  - rewrite Qmult_1_l. apply Qle_shift_div_l; [exact Hq|].
    rewrite Qmult_0_l. change (inject_Z 0 <= inject_Z (count_true accs)).
    rewrite <- Zle_Qle. exact Hc0.
  - rewrite Qmult_1_l. apply Qle_shift_div_r; [exact Hq|].
    rewrite Qmult_1_l. rewrite <- Zle_Qle. lia.
Qed.

(** C8: two runs of [run_chain] with the same arguments from the same
    generator state end the same way, whatever was called before: the same
    trace, the same acceptance ratio and the same final generator state, or
    the same exception.  The calls of a returning run come in a fixed order:
    one uniform draw per dimension for the initial state, then for each step
    the proposal draw, the two density evaluations when the candidate is in
    range, and the acceptance draw exactly when the density went down. *)
Theorem run_chain_deterministic
        (steps : Z) (paramrange : paramrange_t) (sigmaprop : Q) (D : nat)
        (P : density) (w1 w2 : world G) :
  gen w1 = gen w2 ->
  match run_chain steps paramrange sigmaprop D P w1,
        run_chain steps paramrange sigmaprop D P w2 with
  | Ok (r1, w1'), Ok (r2, w2') => r1 = r2 /\ gen w1' = gen w2'
  | Raise e1, Raise e2 => e1 = e2
  | _, _ => False
  end /\
  forall trace ar w1',
    run_chain steps paramrange sigmaprop D P w1 = Ok ((trace, ar), w1') ->
    exists per_step,
      calls w1' = calls w1 ++ initial_calls paramrange D ++ concat per_step /\
      length per_step = Z.to_nat steps /\
      Forall (step_calls sigmaprop D) per_step.
Proof.
  intros Hgen. split.
  - destruct w1 as [g l1], w2 as [g2 l2]. cbn in Hgen. subst g2.
    rewrite (framed_run_chain steps paramrange sigmaprop D P g l1).
    rewrite (framed_run_chain steps paramrange sigmaprop D P g l2).
    destruct (run_chain steps paramrange sigmaprop D P (World g []))
      as [[r w']|e]; auto.
  - intros trace ar w1' Erun.
    apply run_chain_inv in Erun as (x0 & w0 & accs & xs & Ei & Hst & _ & _ & _).
    change (initial_from paramrange 0 D w1 = Ok (x0, w0)) in Ei.
    apply initial_from_inv in Ei as (Hlen & Hc0 & _).
    destruct (chain_steps_calls _ _ _ _ _ _ _ _ _ _ Hst Hlen)
      as (per_step & Hc & Hn & Hall).
    exists per_step. split; [|auto].
    rewrite Hc, Hc0. cbn [skipn]. unfold initial_calls.
    rewrite <- app_assoc. reflexivity.
Qed.

End Claims.

(** * The properties at concrete inputs, with the toy generator *)

Lemma segment_inside (v : Q) :
  -10 < v -> v < 10 -> strictly_inside [v] segment.
Proof.
  intros Hlo Hhi [|[|d]] x low high Hs Hp; try discriminate.
  injection Hs as <-. injection Hp as <- <-. auto.
Qed.

Lemma square_valid : valid_range square 2.
Proof.
  split; [cbn; lia|].
  intros [|[|d]] low high Hd E; try lia; injection E as <- <-; discriminate.
Qed.

(** Three steps on a segment return a trace of four states. *)
Lemma run_chain_trace_length_witness :
  (1 <= 3)%Z /\ (1 <= length segment)%nat /\ 0 <= 1 /\ valid_density bump /\
  exists trace ar w',
    run_chain 3 segment 1 1 bump world0 = Ok ((trace, ar), w') /\
    Z.of_nat (length trace) = (3 + 1)%Z.
Proof.
  assert (H1 : (1 <= 3)%Z) by lia.
  assert (H2 : (1 <= length segment)%nat) by (cbn; lia).
  assert (H3 : 0 <= 1) by discriminate.
  split; [exact H1|]. split; [exact H2|]. split; [exact H3|].
  split; [exact valid_bump|].
  exact (run_chain_trace_length 3 segment 1 1 bump world0 H1 H2 H3 valid_bump).
Defined.

(** With zero steps the same call returns no trace at all, so in particular
    no trace of length one. *)
Lemma run_chain_zero_steps_no_trace :
  (0 <= 0)%Z /\ valid_range segment 1 /\ 0 <= 1 /\ valid_density bump /\
  ~ exists trace ar w',
      run_chain 0 segment 1 1 bump world0 = Ok ((trace, ar), w') /\
      Z.of_nat (length trace) = (0 + 1)%Z.
Proof.
  split; [lia|]. split.
  { split; [cbn; lia|].
    intros [|d] low high Hd E; [|lia]. injection E as <- <-. discriminate. }
  split; [discriminate|]. split; [exact valid_bump|].
  intros (trace & ar & w' & E & _). vm_compute in E. discriminate.
Qed.

Lemma run_chain_zero_steps_witness :
  (1 <= length segment)%nat /\
  run_chain 0 segment 1 1 bump world0 = Raise ZeroDivisionError.
Proof.
  assert (H1 : (1 <= length segment)%nat) by (cbn; lia).
  split; [exact H1|].
  pose proof (run_chain_zero_steps segment 1 1 bump world0) as [_ Hraise].
  exact (Hraise H1).
Defined.

(** The tent vanishes at 1 and is positive at 0: the move from 0 to 1 is
    rejected without any exception. *)
Lemma accept_no_zero_division_witness :
  strictly_inside [1] segment /\ tent [1] = Ok 0 /\ tent [0] = Ok 1 /\
  exists s w',
    accept [1] [0] segment tent world0 = Ok ((false, s), w') /\
    same_value s [0].
Proof.
  assert (Hin : strictly_inside [1] segment)
    by (apply segment_inside; reflexivity).
  assert (Hn0 : 0 <= 0) by discriminate.
  assert (Ho0 : 0 <= 1) by discriminate.
  assert (Hz : 0 == 0) by reflexivity.
  assert (Hpos : 0 < 1) by reflexivity.
  split; [exact Hin|]. split; [reflexivity|]. split; [reflexivity|].
  pose proof (accept_no_zero_division [1] [0] segment tent 0 1 world0
                Hin eq_refl eq_refl eq_refl Hn0 Ho0) as (_ & _ & Hrej).
  exact (Hrej Hz Hpos).
Defined.

(** A candidate exactly at the upper endpoint is rejected even when the
    density evaluator cannot be called at all. *)
Lemma out_of_range_rejected_witness :
  component_outside [10] segment 0 /\
  accept [10] [0] segment broken world0 = Ok ((false, [0]), world0).
Proof.
  assert (Hout : component_outside [10] segment 0).
  { exists 10, (-10), 10. repeat split. right. discriminate. }
  split; [exact Hout|].
  pose proof (out_of_range_rejected [10] [0] segment broken world0 0%nat Hout)
    as [Hrej _].
  exact Hrej.
Defined.

(** From 0 to 1/2 the tent halves: one draw decides. *)
Lemma accept_downhill_draw_witness :
  strictly_inside [1 # 2] segment /\
  tent [1 # 2] = Ok (1 # 2) /\ tent [0] = Ok 1 /\
  exists acc s,
    accept [1 # 2] [0] segment tent world0 =
      Ok ((acc, s),
          World (snd (random_sample (gen world0)))
                (calls world0 ++
                 [EvDensity [1 # 2] (1 # 2); EvDensity [0] 1;
                  EvChoice [(1 # 2) / 1; 1 - (1 # 2) / 1]])) /\
    (acc = true <-> fst (random_sample (gen world0)) < (1 # 2) / 1) /\
    (acc = true -> same_value s [1 # 2]) /\
    (acc = false -> same_value s [0]).
Proof.
  assert (Hin : strictly_inside [1 # 2] segment)
    by (apply segment_inside; reflexivity).
  assert (Hn0 : 0 <= 1 # 2) by discriminate.
  assert (Hlt : 1 # 2 < 1) by reflexivity.
  split; [exact Hin|]. split; [reflexivity|]. split; [reflexivity|].
  exact (accept_downhill_draw [1 # 2] [0] segment tent (1 # 2) 1 world0
           Hin eq_refl eq_refl eq_refl Hn0 Hlt).
Defined.

(** From 1/2 back to 0 the tent doubles: accepted, nothing drawn. *)
Lemma accept_uphill_deterministic_witness :
  strictly_inside [0] segment /\
  tent [0] = Ok 1 /\ tent [1 # 2] = Ok (1 # 2) /\ 1 # 2 <= 1 /\
  accept [0] [1 # 2] segment tent world0 =
    Ok ((true, [0]),
        World (gen world0)
              (calls world0 ++ [EvDensity [0] 1; EvDensity [1 # 2] (1 # 2)])).
Proof.
  assert (Hin : strictly_inside [0] segment)
    by (apply segment_inside; reflexivity).
  assert (Hle : 1 # 2 <= 1) by discriminate.
  split; [exact Hin|]. split; [reflexivity|]. split; [reflexivity|].
  split; [exact Hle|].
  exact (accept_uphill_deterministic [0] [1 # 2] segment tent 1 (1 # 2) world0
           Hin eq_refl eq_refl Hle).
Defined.

(** Both 2 and 3 lie outside the support of the tent: the move is accepted. *)
Lemma accept_from_zero_density_witness :
  strictly_inside [3] segment /\ tent [3] = Ok 0 /\ tent [2] = Ok 0 /\
  exists w', accept [3] [2] segment tent world0 = Ok ((true, [3]), w').
Proof.
  assert (Hin : strictly_inside [3] segment)
    by (apply segment_inside; reflexivity).
  assert (Hz : 0 == 0) by reflexivity.
  assert (Hn0 : 0 <= 0) by discriminate.
  split; [exact Hin|]. split; [reflexivity|]. split; [reflexivity|].
  exact (accept_from_zero_density [3] [2] segment tent 0 0 world0
           Hin eq_refl eq_refl Hz Hn0).
Defined.

(** A two-dimensional chain on the flat target stays in the square. *)
Lemma trace_within_bounds_witness :
  valid_range square 2 /\
  exists trace ar w',
    run_chain 3 square 1 2 flat world0 = Ok ((trace, ar), w') /\
    Forall (fun s => length s = 2%nat /\ within_bounds s square) trace.
Proof.
  split; [exact square_valid|].
  destruct (run_chain 3 square 1 2 flat world0) as [[[trace ar] w']|e] eqn:E.
  - exists trace, ar, w'. split; [reflexivity|].
    exact (trace_within_bounds 3 square 1 2 flat world0 trace ar w'
             square_valid E).
  - vm_compute in E. discriminate.
Defined.

(** The ratio of a five-step chain on the bump counts its accepted steps. *)
Lemma acceptance_ratio_counts_witness :
  (1 <= 5)%Z /\
  exists trace ar w' accs,
    run_chain 5 segment 1 1 bump world0 = Ok ((trace, ar), w') /\
    Z.of_nat (length accs) = 5%Z /\
    ar == inject_Z (count_true accs) / inject_Z 5.
Proof.
  assert (H5 : (1 <= 5)%Z) by lia.
  split; [exact H5|].
  destruct (run_chain 5 segment 1 1 bump world0) as [[[trace ar] w']|e] eqn:E.
  - destruct (acceptance_ratio_counts 5 segment 1 1 bump world0 trace ar w' H5 E)
      as (x0 & w0 & accs & xs & _ & _ & _ & Hlen & Har & _).
    exists trace, ar, w', accs. auto.
  - vm_compute in E. discriminate.
Defined.

(** The same chain after an unrelated earlier call. *)
Lemma run_chain_deterministic_witness :
  gen world0 = gen (World 101%Z [EvUniform 0 1]) /\
  match run_chain 2 segment 1 1 bump world0,
        run_chain 2 segment 1 1 bump (World 101%Z [EvUniform 0 1]) with
  | Ok (r1, w1'), Ok (r2, w2') => r1 = r2 /\ gen w1' = gen w2'
  | Raise e1, Raise e2 => e1 = e2
  | _, _ => False
  end.
Proof.
  split; [reflexivity|].
  pose proof (run_chain_deterministic 2 segment 1 1 bump world0
                (World 101%Z [EvUniform 0 1]) eq_refl) as [Hsame _].
  exact Hsame.
Defined.

(** The bounds test is strict at both ends: a candidate exactly at the lower
    endpoint is rejected as well, even on the flat target. *)
Example accept_at_lower_endpoint :
  accept [-10] [0] segment flat world0 = Ok ((false, [0]), world0).
Proof.
  apply accept_out_of_range. apply (outside_not_in_range _ _ 0%nat).
  exists (-10), (-10), 10. repeat split. left. discriminate.
Qed.

(** With a range of fewer than D rows the initial draw fails. *)
Example run_chain_short_range :
  run_chain 3 segment 1 2 flat world0 = Raise IndexError.
Proof. vm_compute. reflexivity. Qed.

(** A density evaluator that returns negative values makes [choice] fail. *)
Example run_chain_negative_density :
  run_chain 3 segment 1 1
            (fun samp => Ok (- (1 + hd 0 samp * hd 0 samp))) world0 =
    Raise ValueError.
Proof. vm_compute. reflexivity. Qed.

(** * The toy generator [rng] *)

Lemma mod_quotient_unit (c m : Z) :
  (m <> 0)%Z -> ((0 <= c < m) \/ (m < c <= 0))%Z ->
  0 <= 1 * inject_Z c / inject_Z m /\ 1 * inject_Z c / inject_Z m < 1.
Proof.
  intros Hm Hc. rewrite Qmult_1_l.
  destruct (Z_lt_le_dec 0 m) as [Hpos|Hneg].
  - assert (Hq : 0 < inject_Z m)
      by (change (inject_Z 0 < inject_Z m); rewrite <- Zlt_Qlt; exact Hpos).
    assert (Hc' : (0 <= c < m)%Z) by lia. destruct Hc' as [H0 H1].
    split.
    + apply Qle_shift_div_l; [exact Hq|]. rewrite Qmult_0_l.
      change (inject_Z 0 <= inject_Z c). rewrite <- Zle_Qle. exact H0.
    + apply Qlt_shift_div_r; [exact Hq|]. rewrite Qmult_1_l.
      rewrite <- Zlt_Qlt. exact H1.
  - assert (Hc' : (m < c <= 0)%Z) by lia. destruct Hc' as [H0 H1].
    assert (Hq : 0 < inject_Z (- m))
      by (change (inject_Z 0 < inject_Z (- m)); rewrite <- Zlt_Qlt; lia).
    assert (Hne : ~ inject_Z m == 0).
    { intro E. rewrite inject_Z_opp in Hq. rewrite E in Hq. discriminate Hq. }
    assert (Hflip : inject_Z c / inject_Z m == inject_Z (- c) / inject_Z (- m)).
    { rewrite !inject_Z_opp. field. exact Hne. }
    rewrite Hflip. split.
    + apply Qle_shift_div_l; [exact Hq|]. rewrite Qmult_0_l.
      change (inject_Z 0 <= inject_Z (- c)). rewrite <- Zle_Qle. lia.
    + apply Qlt_shift_div_r; [exact Hq|]. rewrite Qmult_1_l.
      rewrite <- Zlt_Qlt. lia.
Qed.


Lemma rng_args_default (current : Z) :
  rng_args LCG.m LCG.a LCG.b current = Ok (LCG.rng current).
Proof. reflexivity. Qed.

Lemma rng_state (current : Z) :
  snd (LCG.rng current) = ((LCG.a * current + LCG.b) mod LCG.m)%Z.
Proof. reflexivity. Qed.

Lemma rng_value (current : Z) :
  fst (LCG.rng current) = 1 * inject_Z (snd (LCG.rng current)) / inject_Z LCG.m.
Proof. reflexivity. Qed.

(** X2: two seeds make [rng] return the same number and leave the same
    state exactly when they are congruent modulo 2^32; in particular the
    step is one-to-one on the states 0 .. 2^32 - 1. *)
Theorem rng_same_iff_congruent (x y : Z) :
  LCG.rng x = LCG.rng y <-> (x mod 2 ^ 32 = y mod 2 ^ 32)%Z.
Proof.
  change (2 ^ 32)%Z with LCG.m.
  assert (Hm : (LCG.m <> 0)%Z) by discriminate.
  split.
  - intros E. apply (f_equal snd) in E. rewrite !rng_state in E.
    assert (Ea : ((LCG.a * x) mod LCG.m = (LCG.a * y) mod LCG.m)%Z).
    { replace (LCG.a * x)%Z with (LCG.a * x + LCG.b - LCG.b)%Z by ring.
      replace (LCG.a * y)%Z with (LCG.a * y + LCG.b - LCG.b)%Z by ring.
      rewrite <- (Zminus_mod_idemp_l (LCG.a * x + LCG.b)).
      rewrite <- (Zminus_mod_idemp_l (LCG.a * y + LCG.b)).
      rewrite E. reflexivity. }
    assert (Hinv : forall z,
               ((4005161829 * ((LCG.a * z) mod LCG.m)) mod LCG.m = z mod LCG.m)%Z).
    { intros z. rewrite Z.mul_mod_idemp_r by exact Hm.
      rewrite Z.mul_assoc. rewrite <- Z.mul_mod_idemp_l by exact Hm.
      change ((4005161829 * LCG.a) mod LCG.m)%Z with 1%Z.
      rewrite Z.mul_1_l. reflexivity. }
    rewrite <- (Hinv x), <- (Hinv y), Ea. reflexivity.
  - intros E.
    assert (Es : snd (LCG.rng x) = snd (LCG.rng y)).
    { rewrite !rng_state.
      rewrite <- (Z.add_mod_idemp_l (LCG.a * x)) by exact Hm.
      rewrite <- (Z.add_mod_idemp_l (LCG.a * y)) by exact Hm.
      rewrite <- (Z.mul_mod_idemp_r LCG.a x) by exact Hm.
      rewrite <- (Z.mul_mod_idemp_r LCG.a y) by exact Hm.
      rewrite E. reflexivity. }
    rewrite (surjective_pairing (LCG.rng x)), (surjective_pairing (LCG.rng y)).
    rewrite (rng_value x), (rng_value y), Es. reflexivity.
Qed.

(** X3: the state left by [rng] has the parity opposite to the state it
    started from, so the lowest bit of the states alternates. *)
Theorem rng_parity_alternates (current : Z) :
  (snd (LCG.rng current) mod 2 = (current + 1) mod 2)%Z.
Proof.
  rewrite rng_state.
  rewrite Z.mod_mod_divide by (exists (2 ^ 31)%Z; reflexivity).
  replace (LCG.a * current + LCG.b)%Z
    with (current + 1 + (551757622 * current + 6172) * 2)%Z
    by (unfold LCG.a, LCG.b; ring).
  apply Z.mod_add. discriminate.
Qed.

Lemma rng_list_S (n : nat) (current : Z) :
  rng_list (S n) current =
    (fst (LCG.rng current) :: fst (rng_list n (snd (LCG.rng current))),
     snd (rng_list n (snd (LCG.rng current)))).
Proof.
  cbn [rng_list]. destruct (LCG.rng current) as [u c]. cbn [fst snd].
  destruct (rng_list n c). reflexivity.
Qed.

(** X4: the comprehension over [rng] returns as many numbers as asked, each
    in the half-open unit interval, whatever the seed. *)
Theorem rng_list_unit_interval (n : nat) (current : Z) :
  length (fst (rng_list n current)) = n /\
  Forall (fun u => 0 <= u /\ u < 1) (fst (rng_list n current)).
Proof.
  revert current. induction n as [|n IH]; intros current.
  - split; [reflexivity | constructor].
  - rewrite rng_list_S. cbn [fst length].
    destruct (IH (snd (LCG.rng current))) as [Hlen Hall].
    split; [congruence|]. constructor; [|exact Hall].
    rewrite rng_value. apply mod_quotient_unit; [discriminate|].
    left. rewrite rng_state. apply Z.mod_pos_bound. reflexivity.
Qed.

(** * Rejection sampling *)

Section RejectionFacts.
Context {G : Type} `{RandomState G}.

Lemma choice_two_closed (p : Q) (w : world G) :
  0 <= p -> p <= 1 ->
  NumPy.random_choice [true; false] [p; 1 - p] w =
    Ok (Qlt_bool (fst (random_sample (gen w))) p,
        World (snd (random_sample (gen w))) (calls w ++ [EvChoice [p; 1 - p]])).
Proof.
  intros Hp0 Hp1. unfold NumPy.random_choice.
  cbn [length Nat.eqb negb existsb orb].
  assert (E1 : Qlt_bool p 0 = false) by (apply Qlt_bool_false_iff; exact Hp0).
  assert (E2 : Qlt_bool (1 - p) 0 = false) by (apply Qlt_bool_false_iff; lra).
  rewrite E1, E2. cbn [orb fold_left].
  assert (E3 : Qlt_bool NumPy.atol (Qabs (0 + p + (1 - p) - 1)) = false).
  { apply Qlt_bool_false_iff.
    assert (Hz : 0 + p + (1 - p) - 1 == 0) by ring.
    rewrite Hz. discriminate. }
  rewrite E3.
  unfold bind, record, NumPy.draw_sample, ret. cbn [gen calls].
  pose proof (random_sample_unit (gen w)) as [Hu0 Hu1].
  destruct (random_sample (gen w)) as [u g] eqn:Eu. cbn [fst snd] in *.
  unfold NumPy.cumsum. cbn [NumPy.cumsum_from map last NumPy.searchsorted_right].
  assert (Hone : (0 + p + (1 - p)) / (0 + p + (1 - p)) == 1) by (field; lra).
  assert (Hr : (0 + p) / (0 + p + (1 - p)) == p) by (field; lra).
  assert (Hc1 : Qle_bool ((0 + p + (1 - p)) / (0 + p + (1 - p))) u = false).
  { apply Qle_bool_false_iff. rewrite Hone. exact Hu1. }
  rewrite Hc1.
  destruct (Qlt_bool u p) eqn:Elt.
  - apply Qlt_bool_iff in Elt.
    assert (Hc0 : Qle_bool ((0 + p) / (0 + p + (1 - p))) u = false)
      by (apply Qle_bool_false_iff; rewrite Hr; exact Elt).
    rewrite Hc0. reflexivity.
  - apply Qlt_bool_false_iff in Elt.
    assert (Hc0 : Qle_bool ((0 + p) / (0 + p + (1 - p))) u = true)
      by (apply Qle_bool_iff; rewrite Hr; exact Elt).
    rewrite Hc0. reflexivity.
Qed.

Lemma choice_two_invalid (p : Q) (w : world G) :
  p < 0 \/ 1 < p ->
  NumPy.random_choice [true; false] [p; 1 - p] w = Raise ValueError.
Proof.
  intros Hp. unfold NumPy.random_choice.
  cbn [length Nat.eqb negb existsb orb].
  destruct Hp as [Hneg|Hbig].
  - apply Qlt_bool_iff in Hneg. rewrite Hneg. reflexivity.
  - assert (E : Qlt_bool (1 - p) 0 = true) by (apply Qlt_bool_iff; lra).
    rewrite E, orb_true_r. reflexivity.
Qed.

Lemma choice_two_inv (p : Q) (w : world G) b w' :
  NumPy.random_choice [true; false] [p; 1 - p] w = Ok (b, w') ->
  0 <= p /\ p <= 1 /\
  b = Qlt_bool (fst (random_sample (gen w))) p /\
  w' = World (snd (random_sample (gen w))) (calls w ++ [EvChoice [p; 1 - p]]).
Proof.
  intros E.
  destruct (Qlt_le_dec p 0) as [Hneg|Hp0];
    [rewrite choice_two_invalid in E by auto; discriminate|].
  destruct (Qlt_le_dec 1 p) as [Hbig|Hp1];
    [rewrite choice_two_invalid in E by auto; discriminate|].
  rewrite (choice_two_closed p w Hp0 Hp1) in E.
  injection E as <- <-. auto.
Qed.

Lemma proposal_density_positive (D : Z) : 0 < 1 / 20 ^ D.
Proof.
  assert (Hpow : 0 < 20 ^ D) by (apply Qpower_0_lt; reflexivity).
  apply Qlt_shift_div_l; [exact Hpow|]. rewrite Qmult_0_l. reflexivity.
Qed.

Lemma envelope_run {A : Type} (c : Q) (D : Z) (P : A -> result Q) (Pargs : A)
      (Pval : Q) (w : world G) :
  0 < c -> P Pargs = Ok Pval ->
  AcceptReject c D P Pargs w =
    NumPy.random_choice [true; false]
      [Pval / (c * (1 / 20 ^ D)); 1 - Pval / (c * (1 / 20 ^ D))] w.
Proof.
  intros Hc HP. unfold AcceptReject, bind, lift. rewrite HP.
  unfold truediv at 1.
  assert (Hpow : 0 < 20 ^ D) by (apply Qpower_0_lt; reflexivity).
  assert (E1 : Qeq_bool (20 ^ D) 0 = false).
  { destruct (Qeq_bool (20 ^ D) 0) eqn:E; [|reflexivity].
    apply Qeq_bool_iff in E. lra. }
  rewrite E1. unfold truediv.
  pose proof (proposal_density_positive D) as Hq.
  assert (Hcq : 0 < c * (1 / 20 ^ D)) by (apply Qmult_lt_0_compat; assumption).
  assert (E2 : Qeq_bool (c * (1 / 20 ^ D)) 0 = false).
  { destruct (Qeq_bool (c * (1 / 20 ^ D)) 0) eqn:E; [|reflexivity].
    apply Qeq_bool_iff in E. lra. }
  rewrite E2. reflexivity.
Qed.




Lemma AcceptReject_true_inv {A : Type} (c : Q) (D : Z) (P : A -> result Q)
      (Pargs : A) (w w' : world G) :
  0 < c -> AcceptReject c D P Pargs w = Ok (true, w') ->
  exists Pval, P Pargs = Ok Pval /\ 0 < Pval /\ Pval <= c * (1 / 20 ^ D).
Proof.
  intros Hc E.
  destruct (P Pargs) as [Pval|e] eqn:HP.
  - rewrite (envelope_run c D P Pargs Pval w Hc HP) in E.
    apply choice_two_inv in E as (Hp0 & Hp1 & Hb & _).
    symmetry in Hb. apply Qlt_bool_iff in Hb.
    destruct (random_sample_unit (gen w)) as [Hu0 _].
    pose proof (proposal_density_positive D) as Hq.
    assert (Hcq : 0 < c * (1 / 20 ^ D)) by (apply Qmult_lt_0_compat; assumption).
    set (q := c * (1 / 20 ^ D)) in *.
    assert (Hval : Pval == Pval / q * q) by (field; lra).
    exists Pval. split; [reflexivity|].
    assert (Hpos : 0 < Pval / q) by lra.
    split.
    + rewrite Hval. apply Qmult_lt_0_compat; assumption.
    + assert (Hle : Pval / q * q <= 1 * q) by (apply Qmult_le_compat_r; lra).
      rewrite Qmult_1_l, <- Hval in Hle. exact Hle.
  - unfold AcceptReject, bind, lift in E. rewrite HP in E. discriminate.
Qed.

End RejectionFacts.

Lemma comprehension_Forall {G A B : Type} (f : A -> M G B) (Q : B -> Prop) xs :
  (forall x y w w', f x w = Ok (y, w') -> Q y) ->
  forall (w : world G) ys w',
    comprehension f xs w = Ok (ys, w') -> Forall Q ys.
Proof.
  intros Hf. induction xs as [|x xs IH]; intros w ys w'; cbn [comprehension].
  - intros [= <- <-]. constructor.
  - unfold bind at 1. destruct (f x w) as [[y w1]|] eqn:E1; [|discriminate].
    unfold bind at 1. destruct (comprehension f xs w1) as [[ys1 w2]|] eqn:E;
      [|discriminate].
    intros [= <- <-]. constructor; [eapply Hf; exact E1 | eapply IH; exact E].
Qed.

Section RejectionLoop.
Context {G : Type} `{RandomState G}.

Lemma draw_sample_Ddim_inv (D : nat) (w : world G) samp w' :
  draw_sample_Ddim D w = Ok (samp, w') -> length samp = D /\ in_box samp.
Proof.
  unfold draw_sample_Ddim, random_uniform_array. unfold bind at 1, record.
  intros E. split.
  - apply comprehension_length in E. rewrite length_seq in E. exact E.
  - revert E. apply comprehension_Forall.
    intros _ y w0 w0'. unfold bind, NumPy.draw_sample, ret.
    pose proof (random_sample_unit (gen w0)) as [Hu0 Hu1].
    destruct (random_sample (gen w0)) as [u g]. cbn [fst] in *.
    intros [= <- _]. split; nra.
Qed.

Lemma rejection_loop_inv (c : Q) (D : nat) (P : density) (n : nat) :
  0 < c ->
  forall st (w : world G) st' w',
    for_range n (rejection_body c D P) st w = Ok (st', w') ->
    fst st = Z.of_nat (length (snd st)) -> Forall (kept c D P) (snd st) ->
    fst st' = Z.of_nat (length (snd st')) /\ Forall (kept c D P) (snd st') /\
    (length (snd st') <= length (snd st) + n)%nat.
Proof.
  intros Hc. induction n as [|n IH]; intros st w st' w'; cbn [for_range].
  - intros [= <- <-] Hcount Hall. repeat split; [assumption..|lia].
  - unfold bind at 1.
    destruct (rejection_body c D P st w) as [[st1 w1]|] eqn:Eb; [|discriminate].
    intros Hrest Hcount Hall.
    unfold rejection_body, bind in Eb.
    destruct (draw_sample_Ddim D w) as [[samp w0]|] eqn:Ed; [|discriminate].
    destruct (AcceptReject c (Z.of_nat D) P samp w0) as [[acc w2]|] eqn:Ea;
      [|discriminate].
    unfold ret in Eb. injection Eb as <- <-.
    apply draw_sample_Ddim_inv in Ed as [Hlen Hbox].
    destruct acc.
    + apply (AcceptReject_true_inv c _ P samp w0 w2 Hc) in Ea.
      specialize (IH _ _ _ _ Hrest). cbn [fst snd] in IH.
      destruct IH as (H1 & H2 & H3).
      * rewrite length_app. cbn [length]. lia.
      * apply Forall_app. split; [exact Hall|].
        constructor; [|constructor]. repeat split; assumption.
      * rewrite length_app in H3. cbn [length] in H3.
        repeat split; [assumption..|lia].
    + destruct (IH _ _ _ _ Hrest Hcount Hall) as (H1 & H2 & H3).
      repeat split; [assumption..|lia].
Qed.

(** X7: the rejection-sampling loop keeps only samples of D components
    drawn in the box [-10,10)^D whose density is strictly positive and under
    the envelope c/20^D (c > 0); it keeps at most N of them, and the ratio it
    prints is the number of kept samples divided by N, between 0 and 1. *)
Theorem rejection_sampling_sound (N : Z) (c : Q) (D : nat) (P : density)
        (w : world G) samples ar w' :
  0 < c ->
  rejection_sampling N c D P w = Ok ((samples, ar), w') ->
  Forall (kept c D P) samples /\
  (Z.of_nat (length samples) <= Z.max 0 N)%Z /\
  ar == inject_Z (Z.of_nat (length samples)) / inject_Z N /\
  0 <= ar /\ ar <= 1.
Proof.
  intros Hc. unfold rejection_sampling. unfold bind at 1.
  destruct (for_range _ _ _ w) as [[st w1]|] eqn:El; [|discriminate].
  apply (rejection_loop_inv c D P _ Hc) in El as (Hcount & Hall & Hle);
    [|reflexivity|constructor].
  cbn [snd length Nat.add] in Hle.
  unfold bind, lift, truediv. rewrite inject_Z_eq_bool_0.
  destruct (Z.eqb_spec N 0) as [|Hne]; [discriminate|].
  unfold ret. intros [= <- <- <-].
  rewrite Hcount, Qmult_1_l.
  split; [exact Hall|]. split; [lia|]. split; [reflexivity|].
  set (len := Z.of_nat (length (snd st))).
  assert (Hlen0 : (0 <= len)%Z) by (unfold len; lia).
  destruct (Z_lt_le_dec 0 N) as [Hpos|Hneg].
  - assert (Hq : 0 < inject_Z N)
      by (change (inject_Z 0 < inject_Z N); rewrite <- Zlt_Qlt; exact Hpos).
    split.
    + apply Qle_shift_div_l; [exact Hq|]. rewrite Qmult_0_l.
      change (inject_Z 0 <= inject_Z len). rewrite <- Zle_Qle. exact Hlen0.
    + apply Qle_shift_div_r; [exact Hq|]. rewrite Qmult_1_l.
      rewrite <- Zle_Qle. unfold len. lia.
  - assert (Hz : len = 0%Z) by (unfold len; lia).
    rewrite Hz. unfold Qdiv. rewrite Qmult_0_l. split; discriminate.
Qed.

End RejectionLoop.

(** * The power-series solution [h_sol] *)

Lemma py_range_by_twos (start stop : Z) :
  py_range start stop 2 = by_twos start (Z.to_nat ((stop - start + 1) / 2)).
Proof.
  unfold py_range.
  replace (stop - start + 2 - 1)%Z with (stop - start + 1)%Z by ring.
  generalize (Z.to_nat ((stop - start + 1) / 2)) as k. intros k.
  assert (Hgen : forall a s,
             map (fun i => (s + Z.of_nat i * 2)%Z) (seq a k) =
             by_twos (s + Z.of_nat a * 2) k).
  { induction k as [|k IH]; intros a s; cbn [seq map by_twos]; [reflexivity|].
    f_equal. rewrite IH. f_equal. lia. }
  rewrite Hgen. f_equal. lia.
Qed.

Lemma by_twos_bounds (j : Z) (k : nat) :
  Forall (fun i => (j <= i <= j + 2 * Z.of_nat k - 2)%Z) (by_twos j k).
Proof.
  revert j. induction k as [|k IH]; intros j; cbn [by_twos]; constructor.
  - lia.
  - eapply Forall_impl; [|apply IH]. cbn beta. intros i Hi. lia.
Qed.

Lemma eval_terms_app (g h : list term) (x : Q) :
  eval_terms (g ++ h) x == eval_terms g x + eval_terms h x.
Proof.
  unfold eval_terms. induction g as [|t g IH]; cbn [app fold_right].
  - ring.
  - rewrite IH. ring.
Qed.

Lemma hermite_lhs_app (n : Z) (g h : list term) (x : Q) :
  hermite_lhs n (g ++ h) x == hermite_lhs n g x + hermite_lhs n h x.
Proof.
  assert (Hd : forall a b, diff_terms (a ++ b) = diff_terms a ++ diff_terms b)
    by (intros a b; apply map_app).
  unfold hermite_lhs. rewrite !Hd, !eval_terms_app. ring.
Qed.

Lemma hermite_lhs_term (n : Z) (q : Q) (j : Z) (x : Q) :
  (2 <= j)%Z ->
  hermite_lhs n [(q, j)] x ==
    inject_Z ((j - 1) * j) * q * x ^ (j - 2)
    + 2 * inject_Z (n - j) * q * x ^ j.
Proof.
  intros Hj. unfold hermite_lhs, diff_terms, eval_terms. cbn [map fold_right fst snd].
  destruct (Z.eqb_spec j 0) as [|_]; [lia|]. cbn [fst snd].
  destruct (Z.eqb_spec (j - 1) 0) as [|_]; [lia|]. cbn [fst snd].
  replace (j - 1 - 1)%Z with (j - 2)%Z by ring.
  assert (Hx : x ^ j == x * x ^ (j - 1)).
  { replace j with (1 + (j - 1))%Z at 1 by ring.
    rewrite Qpower_plus' by lia. reflexivity. }
  rewrite Hx. rewrite inject_Z_mult. unfold Zminus. rewrite !inject_Z_plus.
  rewrite !inject_Z_opp. ring.
Qed.

Lemma hermite_lhs_start (n j0 : Z) (x : Q) :
  j0 = 0%Z \/ j0 = 1%Z ->
  hermite_lhs n [(1, j0)] x == 2 * inject_Z (n - j0) * 1 * x ^ j0.
Proof.
  intros [-> | ->]; unfold hermite_lhs, diff_terms, eval_terms;
    cbn [map fold_right fst snd Z.eqb Z.sub Z.add Z.opp Z.pos_sub];
    unfold Zminus; rewrite inject_Z_plus, inject_Z_opp; cbn [Qpower];
    cbn; ring.
Qed.

Lemma h_sol_fold_residual (n : Z) (x : Q) (k : nat) :
  forall jl st,
    (0 <= jl)%Z ->
    hermite_lhs n (snd st) x == 2 * inject_Z (n - jl) * fst st * x ^ jl ->
    let st' := fold_left (h_sol_step n) (by_twos (jl + 2) k) st in
    hermite_lhs n (snd st') x ==
      2 * inject_Z (n - (jl + 2 * Z.of_nat k)) * fst st' *
      x ^ (jl + 2 * Z.of_nat k).
Proof.
  induction k as [|k IH]; intros jl st Hjl Hinv; cbn [by_twos fold_left].
  - cbv zeta. replace (jl + 2 * Z.of_nat 0)%Z with jl by lia. exact Hinv.
  - cbv zeta.
    replace (jl + 2 * Z.of_nat (S k))%Z with (jl + 2 + 2 * Z.of_nat k)%Z by lia.
    apply (IH (jl + 2)%Z (h_sol_step n st (jl + 2)%Z)); [lia|].
    unfold h_sol_step. cbn [fst snd].
    rewrite hermite_lhs_app, Hinv, hermite_lhs_term by lia.
    replace (jl + 2 - 2)%Z with jl by ring.
    assert (Hden : ~ inject_Z ((jl + 2 - 1) * (jl + 2)) == 0).
    { change 0 with (inject_Z 0). rewrite inject_Z_injective. nia. }
    set (d := inject_Z ((jl + 2 - 1) * (jl + 2))) in *.
    set (F := fst st). set (a := inject_Z (n - jl)).
    set (X := x ^ jl). set (Y := x ^ (jl + 2)).
    set (b := inject_Z (n - (jl + 2))).
    field. exact Hden.
Qed.

Lemma h_sol_loops (n : Z) :
  (0 <= n)%Z ->
  let j0 := (n mod 2)%Z in
  let k := Z.to_nat ((n - j0) / 2) in
  (j0 = 0%Z \/ j0 = 1%Z) /\ (j0 + 2 * Z.of_nat k = n)%Z /\
  h_sol n = snd (fold_left (h_sol_step n) (by_twos (j0 + 2) k) (1, [(1, j0)])) /\
  py_range j0 (n + 1) 2 = j0 :: by_twos (j0 + 2) k.
Proof.
  intros Hn j0 k.
  assert (Hj0 : (0 <= j0 < 2)%Z) by (apply Z.mod_pos_bound; lia).
  assert (Hdiv : (n = 2 * (n / 2) + j0)%Z) by (apply Z.div_mod; lia).
  assert (Hk : ((n - j0) / 2 = n / 2)%Z).
  { replace (n - j0)%Z with (n / 2 * 2)%Z by lia. apply Z.div_mul. lia. }
  assert (Hk0 : (0 <= n / 2)%Z) by (apply Z.div_pos; lia).
  split; [lia|]. split; [unfold k; rewrite Hk; lia|]. split.
  - unfold h_sol. fold j0. rewrite !py_range_by_twos.
    destruct (Z.eqb_spec j0 0) as [E|E].
    + rewrite E. f_equal. f_equal. f_equal. unfold k. rewrite E. f_equal.
      f_equal. lia.
    + assert (E1 : j0 = 1%Z) by lia. rewrite E1. f_equal. f_equal. f_equal.
      unfold k. rewrite E1. f_equal. f_equal. lia.
  - rewrite py_range_by_twos.
    replace (n + 1 - j0 + 1)%Z with ((n - j0) / 2 * 2 + 1 * 2)%Z by lia.
    rewrite Z.div_add by lia. rewrite Z.div_mul by lia.
    rewrite Z2Nat.inj_add by lia. rewrite Nat.add_comm. reflexivity.
Qed.

(** X9: for every n >= 0 the polynomial built by [h_sol(n)] solves the
    equation the series was derived from, with K = 2n + 1:
    h'' - 2 xi h' + 2 n h = 0 at every point. *)
Theorem h_sol_solves_equation (n : Z) (x : Q) :
  (0 <= n)%Z -> hermite_lhs n (h_sol n) x == 0.
Proof.
  intros Hn. destruct (h_sol_loops n Hn) as (Hj0 & Hlast & Hrun & _).
  rewrite Hrun.
  assert (Hj0' : (0 <= n mod 2)%Z) by lia.
  pose proof (h_sol_fold_residual n x (Z.to_nat ((n - n mod 2) / 2))
                (n mod 2)%Z (1, [(1, (n mod 2)%Z)]) Hj0'
                (hermite_lhs_start n (n mod 2)%Z x Hj0)) as Hres.
  cbv zeta in Hres. rewrite Hres, Hlast.
  replace (n - n)%Z with 0%Z by ring. change (inject_Z 0) with 0. ring.
Qed.

Lemma h_sol_fold_powers (n : Z) (js : list Z) :
  forall st,
    map snd (snd (fold_left (h_sol_step n) js st)) = map snd (snd st) ++ js.
Proof.
  induction js as [|j js IH]; intros st; cbn [fold_left].
  - rewrite app_nil_r. reflexivity.
  - rewrite IH. unfold h_sol_step. cbn [snd].
    rewrite map_app, <- app_assoc. reflexivity.
Qed.

Lemma h_sol_factor_nonzero (n j : Z) :
  (2 <= j <= n)%Z ->
  ~ inject_Z (-2) * inject_Z (n - (j - 2)) / inject_Z ((j - 1) * j) == 0.
Proof.
  intros Hj E.
  assert (Hd : ~ inject_Z ((j - 1) * j) == 0).
  { change 0 with (inject_Z 0). rewrite inject_Z_injective. nia. }
  assert (Hnum : inject_Z (-2) * inject_Z (n - (j - 2)) == 0).
  { rewrite <- (Qmult_div_r (inject_Z (-2) * inject_Z (n - (j - 2)))
                            (inject_Z ((j - 1) * j)) Hd).
    rewrite E. ring. }
  rewrite <- inject_Z_mult in Hnum. change 0 with (inject_Z 0) in Hnum.
  rewrite inject_Z_injective in Hnum. lia.
Qed.

Lemma h_sol_fold_nonzero (n : Z) (js : list Z) :
  Forall (fun j => (2 <= j <= n)%Z) js ->
  forall st,
    ~ fst st == 0 -> Forall (fun t : term => ~ fst t == 0) (snd st) ->
    Forall (fun t : term => ~ fst t == 0)
           (snd (fold_left (h_sol_step n) js st)).
Proof.
  induction 1 as [|j js Hj Hjs IH]; intros st HF Hall; cbn [fold_left].
  - exact Hall.
  - assert (HF' : ~ fst (h_sol_step n st j) == 0).
    { unfold h_sol_step. cbn [fst]. intro E.
      apply Qmult_integral in E. destruct E as [E|E]; [exact (HF E)|].
      exact (h_sol_factor_nonzero n j Hj E). }
    apply IH; [exact HF'|].
    unfold h_sol_step in *. cbn [fst snd] in *.
    apply Forall_app. split; [exact Hall|]. constructor; [exact HF' | constructor].
Qed.

(** X10: for every n >= 0 the powers of [xi] in [h_sol(n)] are exactly
    n mod 2, n mod 2 + 2, ..., n, each once and in this order, and every
    coefficient is non-zero: the polynomial has degree n and the parity
    of n. *)
Theorem h_sol_degree_and_parity (n : Z) :
  (0 <= n)%Z ->
  map snd (h_sol n) = py_range (n mod 2) (n + 1) 2 /\
  Forall (fun t : term => ~ fst t == 0) (h_sol n) /\
  exists q, last (h_sol n) (0, 0%Z) = (q, n) /\ ~ q == 0.
Proof.
  intros Hn. destruct (h_sol_loops n Hn) as (Hj0 & Hlast & Hrun & Hrange).
  set (k := Z.to_nat ((n - n mod 2) / 2)) in *.
  assert (Hpow : map snd (h_sol n) = py_range (n mod 2) (n + 1) 2).
  { rewrite Hrun, Hrange, h_sol_fold_powers. reflexivity. }
  assert (Hnz : Forall (fun t : term => ~ fst t == 0) (h_sol n)).
  { rewrite Hrun. apply h_sol_fold_nonzero.
    - eapply Forall_impl; [|apply by_twos_bounds]. cbn beta. intros i Hi. lia.
    - cbn. discriminate.
    - constructor; [cbn; discriminate | constructor]. }
  split; [exact Hpow|]. split; [exact Hnz|].
  assert (Hne : h_sol n <> []).
  { intro E. rewrite E in Hpow. rewrite Hrange in Hpow. discriminate. }
  destruct (exists_last Hne) as (g & [q j] & Eg).
  rewrite Eg, last_last. exists q.
  rewrite Eg in Hnz. apply Forall_app in Hnz as [_ Hq].
  apply Forall_inv in Hq. cbn [fst] in Hq. split; [|exact Hq].
  f_equal. rewrite Eg, map_app, Hrange in Hpow. cbn [map snd] in Hpow.
  apply (f_equal (fun l => last l 0%Z)) in Hpow. cbn beta in Hpow.
  rewrite last_last in Hpow. rewrite Hpow.
  clear - Hlast. revert Hlast. generalize (n mod 2)%Z as j0. intros j0.
  revert j0. induction k as [|k IH]; intros j0 Hk.
  - cbn. lia.
  - cbn [by_twos]. specialize (IH (j0 + 2)%Z).
    change (last (j0 :: j0 + 2 :: by_twos (j0 + 2 + 2) k) 0)%Z
      with (last ((j0 + 2)%Z :: by_twos (j0 + 2 + 2) k) 0%Z).
    apply IH. lia.
Qed.

(** * Edge behaviour of the chain driver *)

Section DriverEdges.
Context {G : Type} `{RandomState G}.

Lemma initial_from_short paramrange n : forall s (w : world G),
  (s <= length paramrange < s + n)%nat ->
  initial_from paramrange s n w = Raise IndexError.
Proof.
  unfold initial_from.
  induction n as [|n IH]; intros s w Hlen; [lia|].
  cbn [seq comprehension]. unfold bind at 1.
  destruct (nth_error paramrange s) as [[low high]|] eqn:Es; [|reflexivity].
  rewrite random_uniform_run.
  assert (Hs : (s < length paramrange)%nat)
    by (apply nth_error_Some; congruence).
  unfold bind at 1. rewrite IH by lia. reflexivity.
Qed.

(** X11: when the range has fewer than D rows, [run_chain] raises
    IndexError during the initial draw, whatever the step count, the step
    size and the density evaluator. *)
Theorem run_chain_short_range_raises
        (steps : Z) (paramrange : paramrange_t) (sigmaprop : Q) (D : nat)
        (P : density) (w : world G) :
  (length paramrange < D)%nat ->
  run_chain steps paramrange sigmaprop D P w = Raise IndexError.
Proof.
  intros Hlen. unfold run_chain. unfold bind at 1.
  change (initial_sample paramrange D w) with (initial_from paramrange 0 D w).
  rewrite initial_from_short by lia. reflexivity.
Qed.

(** X12: with a negative step count the loop is not entered: given a range
    of at least D rows, [run_chain] returns the initial state alone
    together with a ratio equal to 0, without proposing anything and without
    evaluating the density, whatever the step size and the evaluator. *)
Theorem run_chain_negative_steps
        (steps : Z) (paramrange : paramrange_t) (sigmaprop : Q) (D : nat)
        (P : density) (w : world G) :
  (steps < 0)%Z ->
  (D <= length paramrange)%nat ->
  exists x0 ar w0,
    initial_sample paramrange D w = Ok (x0, w0) /\
    run_chain steps paramrange sigmaprop D P w = Ok (([x0], ar), w0) /\
    ar == 0.
Proof.
  intros Hneg HD.
  destruct (initial_from_total paramrange D 0 w HD) as (x0 & w0 & Ei).
  change (initial_sample paramrange D w = Ok (x0, w0)) in Ei.
  exists x0, (1 * inject_Z 0 / inject_Z steps), w0.
  split; [exact Ei|]. split.
  - unfold run_chain, bind. rewrite Ei.
    replace (Z.to_nat steps) with O by lia. cbn [for_range]. unfold ret.
    cbn [cs_count cs_samples]. unfold lift, truediv.
    rewrite inject_Z_eq_bool_0.
    destruct (Z.eqb_spec steps 0); [lia | reflexivity].
  - unfold Qdiv. change (inject_Z 0) with 0. ring.
Qed.




Lemma accept_constant (k : Q) cand x paramrange (P : density) (w : world G) :
  (forall s, P s = Ok k) ->
  exists evs,
    accept cand x paramrange P w =
      Ok ((in_range cand paramrange, if in_range cand paramrange then cand else x),
          World (gen w) (calls w ++ evs)) /\
    Forall not_choice evs.
Proof.
  intros HP. destruct (in_range cand paramrange) eqn:E.
  - exists [EvDensity cand k; EvDensity x k]. split.
    + apply accept_uphill; auto. apply Qle_refl.
    + repeat constructor.
  - exists []. split; [|constructor].
    rewrite accept_out_of_range by exact E. rewrite app_nil_r.
    destruct w. reflexivity.
Qed.

Lemma chain_steps_constant (k : Q) paramrange sigmaprop D (P : density) n x
      (w : world G) accs xs w' :
  (forall s, P s = Ok k) ->
  chain_steps paramrange sigmaprop D P n x w accs xs w' ->
  length x = D ->
  exists evs, calls w' = calls w ++ evs /\ Forall not_choice evs.
Proof.
  intros HP.
  induction 1 as [|n x w cand w1 acc x' w2 accs xs w3 Ep Ea Hsteps IH];
    intros Hlen.
  - exists []. rewrite app_nil_r. split; [reflexivity | constructor].
  - apply (proposal_inv _ _ _ _ _ _ Hlen) in Ep as [Hcand Hc1].
    destruct (accept_constant k cand x paramrange P w1 HP) as (evs & Erun & Hev).
    rewrite Erun in Ea. injection Ea as <- <- <-.
    destruct IH as (rest & Hc3 & Hrest).
    { destruct (in_range cand paramrange); congruence. }
    cbn [calls] in Hc3.
    exists ([EvNormal sigmaprop D] ++ evs ++ rest). split.
    + rewrite Hc3, Hc1, <- !app_assoc. reflexivity.
    + apply Forall_app. split; [repeat constructor|].
      apply Forall_app. auto.
Qed.

(** X14: on a flat target (a density evaluator that returns the same value
    everywhere) a returning chain never makes an acceptance draw: none of
    the calls it adds to the log is a call of [choice]. *)
Theorem flat_target_never_draws
        (k : Q) (steps : Z) (paramrange : paramrange_t) (sigmaprop : Q)
        (D : nat) (P : density) (w : world G) trace ar w' :
  (forall s, P s = Ok k) ->
  run_chain steps paramrange sigmaprop D P w = Ok ((trace, ar), w') ->
  exists evs, calls w' = calls w ++ evs /\ Forall not_choice evs.
Proof.
  intros HP Erun.
  apply run_chain_inv in Erun as (x0 & w0 & accs & xs & Ei & Hst & _ & _ & _).
  change (initial_from paramrange 0 D w = Ok (x0, w0)) in Ei.
  apply initial_from_inv in Ei as (Hlen & Hc0 & _).
  destruct (chain_steps_constant k _ _ _ _ _ _ _ _ _ _ HP Hst Hlen)
    as (evs & Hc & Hev).
  exists (map (fun '(low, high) => EvUniform low high)
              (firstn D (skipn 0 paramrange)) ++ evs).
  split.
  - rewrite Hc, Hc0, <- app_assoc. reflexivity.
  - apply Forall_app. split; [|exact Hev].
    apply Forall_map. apply Forall_forall. intros [low high] _. exact I.
Qed.

End DriverEdges.

Section RejectionTotal.
Context {G : Type} `{RandomState G}.




End RejectionTotal.

(** * The further properties at concrete inputs *)


Lemma rng_same_iff_congruent_witness :
  LCG.rng 101 = LCG.rng (101 + 2 ^ 32).
Proof.
  pose proof (rng_same_iff_congruent 101 (101 + 2 ^ 32)) as [_ Hback].
  apply Hback. reflexivity.
Defined.




Lemma rejection_sampling_sound_witness :
  0 < 20 /\
  exists samples ar w',
    rejection_sampling 6 20 1 tent world0 = Ok ((samples, ar), w') /\
    Forall (kept 20 1 tent) samples /\
    ar == inject_Z (Z.of_nat (length samples)) / inject_Z 6.
Proof.
  assert (Hc : 0 < 20) by reflexivity.
  split; [exact Hc|].
  destruct (rejection_sampling 6 20 1 tent world0)
    as [[[samples ar] w']|e] eqn:E.
  - destruct (rejection_sampling_sound 6 20 1 tent world0 samples ar w' Hc E)
      as (Hkept & _ & Har & _).
    exists samples, ar, w'. auto.
  - vm_compute in E. discriminate.
Defined.


Lemma h_sol_solves_equation_witness :
  (0 <= 3)%Z /\ hermite_lhs 3 (h_sol 3) (1 # 2) == 0.
Proof.
  assert (H3 : (0 <= 3)%Z) by lia.
  split; [exact H3|].
  exact (h_sol_solves_equation 3 (1 # 2) H3).
Defined.

Lemma h_sol_degree_and_parity_witness :
  (0 <= 4)%Z /\ map snd (h_sol 4) = [0; 2; 4]%Z /\
  Forall (fun t : term => ~ fst t == 0) (h_sol 4).
Proof.
  assert (H4 : (0 <= 4)%Z) by lia.
  split; [exact H4|].
  pose proof (h_sol_degree_and_parity 4 H4) as (Hpow & Hnz & _).
  split; [exact Hpow | exact Hnz].
Defined.

Lemma run_chain_short_range_raises_witness :
  (length segment < 2)%nat /\
  run_chain 3 segment 1 2 flat world0 = Raise IndexError.
Proof.
  assert (Hlen : (length segment < 2)%nat) by (cbn; lia).
  split; [exact Hlen|].
  exact (run_chain_short_range_raises 3 segment 1 2 flat world0 Hlen).
Defined.

Lemma run_chain_negative_steps_witness :
  (-2 < 0)%Z /\ (1 <= length segment)%nat /\
  exists x0 ar w0,
    initial_sample segment 1 world0 = Ok (x0, w0) /\
    run_chain (-2) segment (-1) 1 broken world0 = Ok (([x0], ar), w0) /\
    ar == 0.
Proof.
  assert (Hneg : (-2 < 0)%Z) by lia.
  assert (HD : (1 <= length segment)%nat) by (cbn; lia).
  split; [exact Hneg|]. split; [exact HD|].
  exact (run_chain_negative_steps (-2) segment (-1) 1 broken world0 Hneg HD).
Defined.


Lemma flat_target_never_draws_witness :
  (forall s, flat s = Ok 1) /\
  exists trace ar w' evs,
    run_chain 4 square 1 2 flat world0 = Ok ((trace, ar), w') /\
    calls w' = calls world0 ++ evs /\ Forall not_choice evs.
Proof.
  assert (Hflat : forall s, flat s = Ok 1) by reflexivity.
  split; [exact Hflat|].
  destruct (run_chain 4 square 1 2 flat world0) as [[[trace ar] w']|e] eqn:E.
  - destruct (flat_target_never_draws 1 4 square 1 2 flat world0 trace ar w'
                Hflat E) as (evs & Hcalls & Hev).
    exists trace, ar, w', evs. auto.
  - vm_compute in E. discriminate.
Defined.
